(** * SCUF Envision Pro bridge: a shallow embedding of [scuf_virtual_pad.py]

    The Python program reads two kernel devices (an evdev event stream and a
    hidraw binary report stream) and re-emits what it reads on a virtual
    gamepad.  This development embeds its translation logic as Rocq
    functions and proves the properties its specification states.

    Conventions of the embedding:
    - Python [int] is [Z] (unbounded);
    - Python [float] is an IEEE-754 binary64 value, [spec_float] with
      precision 53 and [emax] 1024, and its arithmetic is the correctly
      rounded arithmetic of [SpecFloat];
    - Python [bytes] is [list byte];
    - a [dict] is a [gmap]; a raised exception is [Raise];
    - the virtual device [ui] is the list of operations sent to it, oldest
      first. *)

From Stdlib Require Import ZArith Lia List.
From Stdlib Require Import Strings.Byte.
From Stdlib Require Import Floats.SpecFloat.
From stdpp Require Import base option list gmap.

Local Open Scope Z_scope.

(** ** Python outcomes: a returned value or a raised exception *)

Inductive pyexn : Type :=
| KeyError
| OverflowError
| ValueError
| ZeroDivisionError
| StructError.

Inductive exc (A : Type) : Type :=
| Ret (a : A)
| Raise (e : pyexn).

Arguments Ret {A} a.
Arguments Raise {A} e.

Definition bind {A B : Type} (m : exc A) (k : A -> exc B) : exc B :=
  match m with
  | Ret a => k a
  | Raise e => Raise e
  end.

Notation "'let*' x ':=' m 'in' k" := (bind m (fun x => k))
  (at level 10, x name, m at level 100, k at level 200).
Notation "'let*' ' p ':=' m 'in' k" := (bind m (fun x => let 'p := x in k))
  (at level 10, p pattern, m at level 100, k at level 200).

(** ** Event codes

    [evdev.ecodes] re-exports the constants of the kernel header
    [linux/input-event-codes.h]; the values below are the header's. *)

Module e.
Definition EV_SYN : Z := 0.
Definition EV_KEY : Z := 1.
Definition EV_ABS : Z := 3.

Definition BTN_SOUTH  : Z := 0x130.
Definition BTN_EAST   : Z := 0x131.
Definition BTN_C      : Z := 0x132.
Definition BTN_NORTH  : Z := 0x133.
Definition BTN_WEST   : Z := 0x134.
Definition BTN_Z      : Z := 0x135.
Definition BTN_TL     : Z := 0x136.
Definition BTN_TR     : Z := 0x137.
Definition BTN_TL2    : Z := 0x138.
Definition BTN_TR2    : Z := 0x139.
Definition BTN_SELECT : Z := 0x13a.
Definition BTN_START  : Z := 0x13b.
Definition BTN_MODE   : Z := 0x13c.
Definition BTN_THUMBL : Z := 0x13d.
Definition BTN_THUMBR : Z := 0x13e.
Definition BTN_DPAD_UP    : Z := 0x220.
Definition BTN_DPAD_DOWN  : Z := 0x221.
Definition BTN_DPAD_LEFT  : Z := 0x222.
Definition BTN_DPAD_RIGHT : Z := 0x223.

Definition ABS_X  : Z := 0x00.
Definition ABS_Y  : Z := 0x01.
Definition ABS_Z  : Z := 0x02.
Definition ABS_RX : Z := 0x03.
Definition ABS_RY : Z := 0x04.
Definition ABS_RZ : Z := 0x05.
Definition ABS_HAT0X : Z := 0x10.
Definition ABS_HAT0Y : Z := 0x11.
End e.

(** ** Configuration constants *)

Definition LEFT_DEADZONE : Z := 3500.
Definition LEFT_JITTER : Z := 300.
Definition RIGHT_DEADZONE : Z := 2000.
Definition RIGHT_JITTER : Z := 300.
Definition L2_MAX : Z := 1023.
Definition R2_MAX : Z := 1023.

(** A dict display [{k1: v1, k2: v2, ...}] inserts its items left to right,
    so a repeated key keeps the last value. *)
Definition dict_of (items : list (Z * Z)) : gmap Z Z :=
  foldl (fun m kv => <[kv.1 := kv.2]> m) ∅ items.

Definition BUTTON_REMAP : gmap Z Z :=
  dict_of
    [ (e.BTN_SOUTH, e.BTN_SOUTH);
      (e.BTN_EAST,  e.BTN_EAST);
      (e.BTN_NORTH, e.BTN_NORTH);
      (e.BTN_C,     e.BTN_WEST);
      (e.BTN_WEST,  e.BTN_TL);
      (e.BTN_Z,     e.BTN_TR);
      (e.BTN_TR,    e.BTN_START);
      (e.BTN_TL,    e.BTN_SELECT);
      (e.BTN_MODE,  e.BTN_MODE);
      (e.BTN_TL2,   e.BTN_THUMBL);
      (e.BTN_TR2,   e.BTN_THUMBR) ].

Definition VIRTUAL_BUTTONS : list Z :=
  [ e.BTN_SOUTH; e.BTN_EAST; e.BTN_NORTH; e.BTN_WEST;
    e.BTN_TL; e.BTN_TR;
    e.BTN_SELECT; e.BTN_START; e.BTN_MODE;
    e.BTN_THUMBL; e.BTN_THUMBR;
    e.BTN_DPAD_UP; e.BTN_DPAD_DOWN; e.BTN_DPAD_LEFT; e.BTN_DPAD_RIGHT ].

(** ** The output sink

    [ui.write(type, code, value)] and [ui.syn()] are recorded in the order
    in which the program issues them. *)

Inductive SinkOp : Type :=
| Write (etype code value : Z)
| Syn.

Definition is_syn (op : SinkOp) : bool :=
  match op with
  | Syn => true
  | Write _ _ _ => false
  end.

(** The operations [make_uinput] sends after it has created the device. *)
Definition make_uinput : list SinkOp :=
  [ Write e.EV_ABS e.ABS_X 0;
    Write e.EV_ABS e.ABS_Y 0;
    Write e.EV_ABS e.ABS_RX 0;
    Write e.EV_ABS e.ABS_RY 0;
    Write e.EV_ABS e.ABS_Z 0;
    Write e.EV_ABS e.ABS_RZ 0;
    Write e.EV_ABS e.ABS_HAT0X 0;
    Write e.EV_ABS e.ABS_HAT0Y 0;
    Syn ].

(** ** Report decoder *)

Definition byte_val (b : byte) : Z := Z.of_N (Byte.to_N b).

(** [struct.unpack_from("<H", buf, off)[0]]: two bytes, least significant
    first; [struct.error] when the buffer ends before [off + 2]. *)
Definition unpack_from_le_H (buf : list byte) (off : nat) : exc Z :=
  match buf !! off, buf !! S off with
  | Some lo, Some hi => Ret (Z.lor (byte_val lo) (Z.shiftl (byte_val hi) 8))
  | _, _ => Raise StructError
  end.

(** The result is Python's [None] ([None] here) or the reading. *)
Definition parse_report6 (report : list byte) : exc (option Z) :=
  match report with
  | [] => Ret None
  | b0 :: _ =>
      if bool_decide (byte_val b0 ≠ 0x06) then Ret None
      else if bool_decide (Z.of_nat (length report) < 14) then Ret None
      else let* rx := unpack_from_le_H report 9 in Ret (Some rx)
  end.

(** ** Python floats *)

Definition prec : Z := 53.
Definition emax : Z := 1024.

(** [float(n)] for an int [n]: the nearest binary64 value, ties to even;
    [OverflowError] when that is out of range. *)
Definition float_of_int (n : Z) : exc spec_float :=
  match binary_normalize prec emax n 0 false with
  | S754_infinity _ => Raise OverflowError
  | f => Ret f
  end.

(** [a / b] on ints whose magnitudes are below [2^53], which is all the
    program divides: both convert exactly and the quotient is rounded
    once. *)
Definition int_truediv (a b : Z) : exc spec_float :=
  if bool_decide (b = 0) then Raise ZeroDivisionError
  else
    let* x := float_of_int a in
    let* y := float_of_int b in
    Ret (SFdiv prec emax x y).

(** [x * n] for a float [x] and an int [n]. *)
Definition float_mul_int (x : spec_float) (n : Z) : exc spec_float :=
  let* y := float_of_int n in
  Ret (SFmul prec emax x y).

(** The integer nearest to [m * 2^ex] for [m > 0], ties to even. *)
Definition nearest_even (m : positive) (ex : Z) : Z :=
  match ex with
  | Zneg p =>
      let d := Z.pow_pos 2 p in
      let q := Z.pos m / d in
      let r := Z.pos m mod d in
      match 2 * r ?= d with
      | Lt => q
      | Gt => q + 1
      | Eq => if Z.even q then q else q + 1
      end
  | _ => Z.pos m * 2 ^ ex
  end.

(** [round(x)] with one argument: an int, ties to even. *)
Definition py_round (x : spec_float) : exc Z :=
  match x with
  | S754_zero _ => Ret 0
  | S754_finite s m ex =>
      Ret (if s then - nearest_even m ex else nearest_even m ex)
  | S754_infinity _ => Raise OverflowError
  | S754_nan => Raise ValueError
  end.

Definition centered_u16_to_trigger (raw_u16 max_val : Z) : exc Z :=
  let delta := raw_u16 - 0x8000 in
  let delta := if bool_decide (delta < 0) then 0 else delta in
  let delta := if bool_decide (delta > 0x7FFF) then 0x7FFF else delta in
  let* q := int_truediv delta 0x7FFF in
  let* x := float_mul_int q max_val in
  py_round x.

(** ** Axis filter

    The dict [last] is threaded through: the result pairs what the call
    returns ([None] for Python's [None]) with [last] after the call. *)
Definition apply_stick_filter (axis_code signed_value : Z) (last : gmap Z Z)
  : option Z * gmap Z Z :=
  let '(dz, js) :=
    if bool_decide (axis_code ∈ [e.ABS_RX; e.ABS_RY])
    then (RIGHT_DEADZONE, RIGHT_JITTER)
    else (LEFT_DEADZONE, LEFT_JITTER) in
  let v := if bool_decide (Z.abs signed_value < dz) then 0 else signed_value in
  let prev := last !! axis_code in
  if match prev with
     | Some p => bool_decide (v ≠ 0) && bool_decide (Z.abs (v - p) < js)
     | None => false
     end
  then (None, last)
  else if match prev with
          | Some p => bool_decide (v = 0) && bool_decide (p = 0)
          | None => false
          end
  then (None, last)
  else (Some v, <[axis_code := v]> last).

(** ** Translation engine *)

Record InputEvent : Type := {
  ev_type : Z;
  ev_code : Z;
  ev_value : Z
}.

(** The local variables of [main] that outlive one loop iteration. *)
Record Engine : Type := {
  last_stick : gmap Z Z;
  last_l2 : Z;
  last_r2 : Z;
  hat_x : Z;
  hat_y : Z;
  last_dpad : gmap Z Z
}.

Definition set_last_stick (st : Engine) (m : gmap Z Z) : Engine :=
  {| last_stick := m; last_l2 := last_l2 st; last_r2 := last_r2 st;
     hat_x := hat_x st; hat_y := hat_y st; last_dpad := last_dpad st |}.

Definition set_last_l2 (st : Engine) (v : Z) : Engine :=
  {| last_stick := last_stick st; last_l2 := v; last_r2 := last_r2 st;
     hat_x := hat_x st; hat_y := hat_y st; last_dpad := last_dpad st |}.

Definition set_last_r2 (st : Engine) (v : Z) : Engine :=
  {| last_stick := last_stick st; last_l2 := last_l2 st; last_r2 := v;
     hat_x := hat_x st; hat_y := hat_y st; last_dpad := last_dpad st |}.

Definition set_hat_x (st : Engine) (v : Z) : Engine :=
  {| last_stick := last_stick st; last_l2 := last_l2 st; last_r2 := last_r2 st;
     hat_x := v; hat_y := hat_y st; last_dpad := last_dpad st |}.

Definition set_hat_y (st : Engine) (v : Z) : Engine :=
  {| last_stick := last_stick st; last_l2 := last_l2 st; last_r2 := last_r2 st;
     hat_x := hat_x st; hat_y := v; last_dpad := last_dpad st |}.

Definition set_last_dpad (st : Engine) (m : gmap Z Z) : Engine :=
  {| last_stick := last_stick st; last_l2 := last_l2 st; last_r2 := last_r2 st;
     hat_x := hat_x st; hat_y := hat_y st; last_dpad := m |}.

Definition initial : Engine :=
  {| last_stick := ∅; last_l2 := 0; last_r2 := 0; hat_x := 0; hat_y := 0;
     last_dpad := dict_of [ (e.BTN_DPAD_LEFT, 0); (e.BTN_DPAD_RIGHT, 0);
                            (e.BTN_DPAD_UP, 0); (e.BTN_DPAD_DOWN, 0) ] |}.

(** *** D-pad synthesizer *)

(** The items of the dict [dpad] in the order [dpad.items()] yields them,
    which is the order of the display: its four keys are distinct. *)
Definition dpad_items (hx hy : Z) : list (Z * Z) :=
  [ (e.BTN_DPAD_LEFT,  if bool_decide (hx = -1) then 1 else 0);
    (e.BTN_DPAD_RIGHT, if bool_decide (hx = 1) then 1 else 0);
    (e.BTN_DPAD_UP,    if bool_decide (hy = -1) then 1 else 0);
    (e.BTN_DPAD_DOWN,  if bool_decide (hy = 1) then 1 else 0) ].

(** The [for btn, state in dpad.items()] loop; [last_dpad[btn]] raises
    [KeyError] on a missing key. *)
Fixpoint dpad_loop (items : list (Z * Z)) (last : gmap Z Z)
  : exc (gmap Z Z * list SinkOp) :=
  match items with
  | [] => Ret (last, [])
  | (btn, state) :: rest =>
      match last !! btn with
      | None => Raise KeyError
      | Some old =>
          if bool_decide (old ≠ state) then
            let* '(last', ops) := dpad_loop rest (<[btn := state]> last) in
            Ret (last', Write e.EV_KEY btn state :: ops)
          else dpad_loop rest last
      end
  end.

Definition apply_dpad (st : Engine) : exc (Engine * list SinkOp) :=
  let* '(last', ops) := dpad_loop (dpad_items (hat_x st) (hat_y st)) (last_dpad st) in
  Ret (set_last_dpad st last', ops).

(** *** One event of an evdev batch: the body of [for ev in batch] *)

Definition forward (code : Z) (filtered : option Z) : list SinkOp :=
  match filtered with
  | Some v => [Write e.EV_ABS code v]
  | None => []
  end.

Definition on_event (st : Engine) (ev : InputEvent) : exc (Engine * list SinkOp) :=
  if bool_decide (ev_type ev = e.EV_KEY) then
    let out := default (ev_code ev) (BUTTON_REMAP !! ev_code ev) in
    if bool_decide (out ∈ VIRTUAL_BUTTONS)
    then Ret (st, [Write e.EV_KEY out (ev_value ev)])
    else Ret (st, [])
  else if bool_decide (ev_type ev = e.EV_ABS) then
    if bool_decide (ev_code ev ∈ [e.ABS_X; e.ABS_Y]) then
      let '(filtered, last) :=
        apply_stick_filter (ev_code ev) (ev_value ev) (last_stick st) in
      Ret (set_last_stick st last, forward (ev_code ev) filtered)
    else if bool_decide (ev_code ev = e.ABS_RX) then
      if bool_decide (ev_value ev ≠ last_l2 st)
      then Ret (set_last_l2 st (ev_value ev), [Write e.EV_ABS e.ABS_Z (ev_value ev)])
      else Ret (st, [])
    else if bool_decide (ev_code ev = e.ABS_Z) then
      let '(filtered, last) :=
        apply_stick_filter e.ABS_RX (ev_value ev) (last_stick st) in
      Ret (set_last_stick st last, forward e.ABS_RX filtered)
    else if bool_decide (ev_code ev = e.ABS_RZ) then
      let '(filtered, last) :=
        apply_stick_filter e.ABS_RY (ev_value ev) (last_stick st) in
      Ret (set_last_stick st last, forward e.ABS_RY filtered)
    else if bool_decide (ev_code ev = e.ABS_RY) then
      Ret (st, [])
    else if bool_decide (ev_code ev = e.ABS_HAT0X) then
      apply_dpad (set_hat_x st (ev_value ev))
    else if bool_decide (ev_code ev = e.ABS_HAT0Y) then
      apply_dpad (set_hat_y st (ev_value ev))
    else Ret (st, [])
  else Ret (st, []).

Fixpoint for_each_event (st : Engine) (batch : list InputEvent)
  : exc (Engine * list SinkOp) :=
  match batch with
  | [] => Ret (st, [])
  | ev :: rest =>
      let* '(st1, ops1) := on_event st ev in
      let* '(st2, ops2) := for_each_event st1 rest in
      Ret (st2, ops1 ++ ops2)
  end.

(** *** The two branches of the [select] loop

    What a read yields is the argument: [None] when it raised
    [BlockingIOError], which the program answers with [continue]. *)

Definition on_evdev (st : Engine) (read : option (list InputEvent))
  : exc (Engine * list SinkOp) :=
  match read with
  | None => Ret (st, [])
  | Some batch =>
      let* '(st', ops) := for_each_event st batch in
      Ret (st', ops ++ [Syn])
  end.

Definition on_hidraw (st : Engine) (read : option (list byte))
  : exc (Engine * list SinkOp) :=
  match read with
  | None => Ret (st, [])
  | Some data =>
      let* raw_rx := parse_report6 data in
      match raw_rx with
      | None => Ret (st, [])
      | Some raw =>
          let* r2_val := centered_u16_to_trigger raw R2_MAX in
          if bool_decide (r2_val ≠ last_r2 st)
          then Ret (set_last_r2 st r2_val, [Write e.EV_ABS e.ABS_RZ r2_val; Syn])
          else Ret (st, [])
      end
  end.

(** One ready key of [sel.select()], with what its read yields. *)
Inductive Ready : Type :=
| Hidraw (read : option (list byte))
| Evdev (read : option (list InputEvent)).

Definition serve (st : Engine) (r : Ready) : exc (Engine * list SinkOp) :=
  match r with
  | Hidraw read => on_hidraw st read
  | Evdev read => on_evdev st read
  end.

(** The [while True] loop over the keys that successive [select] calls
    report, in order. *)
Fixpoint main_loop (st : Engine) (keys : list Ready) : exc (Engine * list SinkOp) :=
  match keys with
  | [] => Ret (st, [])
  | r :: rest =>
      let* '(st1, ops1) := serve st r in
      let* '(st2, ops2) := main_loop st1 rest in
      Ret (st2, ops1 ++ ops2)
  end.

(** The sink's whole history after [main] has served [keys]. *)
Definition main (keys : list Ready) : exc (Engine * list SinkOp) :=
  let* '(st, ops) := main_loop initial keys in
  Ret (st, make_uinput ++ ops).

(** * Vocabulary of the properties

    Predicates and helper functions in which the properties below are
    stated; none of them is part of the program. *)

(** ** Events *)

Definition key_event (code value : Z) : InputEvent :=
  {| ev_type := e.EV_KEY; ev_code := code; ev_value := value |}.

Definition abs_event (code value : Z) : InputEvent :=
  {| ev_type := e.EV_ABS; ev_code := code; ev_value := value |}.

(** ** Report decoder and trigger scaling *)

(** The reports the decoder declines: empty, shorter than 14 bytes, or
    with a leading byte other than 0x06. *)
Definition not_applicable (report : list byte) : Prop :=
  report = [] \/ (length report < 14)%nat \/
  exists b, head report = Some b /\ b <> x06.

(** The delta the conversion scales: the distance above centre, kept
    within [0, 0x7FFF]. *)
Definition clamp_delta (raw_u16 : Z) : Z :=
  Z.min (Z.max (raw_u16 - 0x8000) 0) 0x7FFF.

(** [delta * 1023 / 0x7FFF] rounded to the nearest integer, in integer
    arithmetic. *)
Definition scaled (delta : Z) : Z := (2 * delta * 1023 + 0x7FFF) / (2 * 0x7FFF).

(** The float pipeline of [centered_u16_to_trigger] on a clamped delta. *)
Definition scale_delta (delta max_val : Z) : exc Z :=
  let* q := int_truediv delta 0x7FFF in
  let* x := float_mul_int q max_val in
  py_round x.

Definition returns (m : exc Z) (z : Z) : bool :=
  match m with
  | Ret r => r =? z
  | Raise _ => false
  end.

(** [P] on every integer of [base, base + 2^bits), by halving. *)
Fixpoint all_below (bits : nat) (base : Z) (P : Z -> bool) : bool :=
  match bits with
  | O => P base
  | S n => all_below n base P && all_below n (base + 2 ^ Z.of_nat n) P
  end.

(** ** Axis filter *)

(** The two filter profiles: the right-stick thresholds for the output
    codes [ABS_RX] and [ABS_RY], the left-stick thresholds otherwise. *)
Definition deadzone (axis : Z) : Z :=
  if bool_decide (axis = e.ABS_RX \/ axis = e.ABS_RY) then RIGHT_DEADZONE else LEFT_DEADZONE.

Definition jitter (axis : Z) : Z :=
  if bool_decide (axis = e.ABS_RX \/ axis = e.ABS_RY) then RIGHT_JITTER else LEFT_JITTER.

(** The value the filter works with once the deadzone is applied. *)
Definition post_deadzone (axis raw : Z) : Z :=
  if bool_decide (Z.abs raw < deadzone axis) then 0 else raw.

(** The two suppression rules, for a previous accepted value [prev]. *)
Definition is_jitter (axis v prev : Z) : Prop :=
  v <> 0 /\ Z.abs (v - prev) < jitter axis.

Definition is_rest_repeat (v prev : Z) : Prop := v = 0 /\ prev = 0.

(** ** D-pad synthesizer *)

Definition dpad_buttons : list Z :=
  [ e.BTN_DPAD_LEFT; e.BTN_DPAD_RIGHT; e.BTN_DPAD_UP; e.BTN_DPAD_DOWN ].

(** [last_dpad] has an entry for each direction button, as it has when
    [main] creates it; [last_dpad[btn]] then never raises. *)
Definition dpad_wf (st : Engine) : Prop :=
  forall btn, btn ∈ dpad_buttons -> is_Some (last_dpad st !! btn).

(** The items whose state is not the one last sent. *)
Definition dpad_changes (items : list (Z * Z)) (last : gmap Z Z) : list (Z * Z) :=
  filter (fun it => last !! it.1 <> Some it.2) items.

Definition key_write (it : Z * Z) : SinkOp := Write e.EV_KEY it.1 it.2.

(** [last] once each item's state has been stored. *)
Definition store_all (items : list (Z * Z)) (last : gmap Z Z) : gmap Z Z :=
  foldl (fun m it => <[it.1 := it.2]> m) last items.

Definition is_hat_event (ev : InputEvent) : Prop :=
  ev_type ev = e.EV_ABS /\ (ev_code ev = e.ABS_HAT0X \/ ev_code ev = e.ABS_HAT0Y).

(** A hat position [(x, y)] arriving as its two axis events. *)
Definition hat_update (pos : Z * Z) : list InputEvent :=
  [ abs_event e.ABS_HAT0X pos.1; abs_event e.ABS_HAT0Y pos.2 ].

(** A derived button state: 1 (on) when [P] holds, 0 (off) otherwise. *)
Definition on_iff (state : Z) (P : Prop) : Prop :=
  (P -> state = 1) /\ (~ P -> state = 0).

(** The writes of each hat position of a sequence, one list per position. *)
Fixpoint per_update (st : Engine) (updates : list (Z * Z)) : exc (list (list SinkOp)) :=
  match updates with
  | [] => Ret []
  | pos :: rest =>
      let* '(st1, ops) := for_each_event st (hat_update pos) in
      let* trace := per_update st1 rest in
      Ret (ops :: trace)
  end.

(** ** The two transports *)

(** [ops] holds a write to the right-trigger channel directly followed by
    a frame commit. *)
Definition writes_r2_frame (ops : list SinkOp) : Prop :=
  exists v before after,
    ops = before ++ [Write e.EV_ABS e.ABS_RZ v; Syn] ++ after.

(** The report decodes to a trigger value. *)
Definition decodes_to (data : list byte) (v : Z) : Prop :=
  exists raw, parse_report6 data = Ret (Some raw) /\
              centered_u16_to_trigger raw R2_MAX = Ret v.

Definition stick_outputs : list Z := [ e.ABS_X; e.ABS_Y; e.ABS_RX; e.ABS_RY ].
Definition stick_inputs : list Z := [ e.ABS_X; e.ABS_Y; e.ABS_Z; e.ABS_RZ ].
Definition trigger_outputs : list Z := [ e.ABS_Z; e.ABS_RZ ].
Definition hat_axes : list Z := [ e.ABS_HAT0X; e.ABS_HAT0Y ].

(** Where a write of an evdev batch comes from: a button write, a stick
    write carrying zero or the value of a stick event, or a left-trigger
    write carrying the value of an [ABS_RX] event.  A commit is none of
    these. *)
Definition op_from_event (ev : InputEvent) (op : SinkOp) : Prop :=
  match op with
  | Syn => False
  | Write t c v =>
      t = e.EV_KEY \/
      (t = e.EV_ABS /\ ev_type ev = e.EV_ABS /\
       ((c ∈ stick_outputs /\ ev_code ev ∈ stick_inputs /\ (v = 0 \/ v = ev_value ev)) \/
        (c = e.ABS_Z /\ ev_code ev = e.ABS_RX /\ v = ev_value ev)))
  end.

(** Where an operation of one served key comes from. *)
Definition op_from_key (r : Ready) (op : SinkOp) : Prop :=
  match r with
  | Evdev (Some batch) => op = Syn \/ exists ev, ev ∈ batch /\ op_from_event ev op
  | Hidraw (Some data) =>
      op = Syn \/ exists v, op = Write e.EV_ABS e.ABS_RZ v /\ decodes_to data v
  | _ => False
  end.

(** ** Channel ranges *)

(** The ranges [make_uinput] declares for the analog channels. *)
Definition in_declared_range (op : SinkOp) : Prop :=
  match op with
  | Syn => True
  | Write t c v =>
      t = e.EV_ABS ->
      (c ∈ stick_outputs -> -32768 <= v <= 32767) /\
      (c ∈ trigger_outputs -> 0 <= v <= 1023) /\
      (c ∈ hat_axes -> -1 <= v <= 1)
  end.

Definition is_hat_write (op : SinkOp) : Prop :=
  match op with
  | Syn => False
  | Write t c v => t = e.EV_ABS /\ c ∈ hat_axes
  end.

Definition r2_in_range (op : SinkOp) : Prop :=
  match op with
  | Write t c v => t = e.EV_ABS -> c = e.ABS_RZ -> 0 <= v <= 1023
  | Syn => True
  end.

(** What the input device is taken to report: stick readings within the
    signed 16-bit range and left-trigger readings within [0, 1023]. *)
Definition in_source_range (ev : InputEvent) : Prop :=
  ev_type ev = e.EV_ABS ->
  (ev_code ev ∈ stick_inputs -> -32768 <= ev_value ev <= 32767) /\
  (ev_code ev = e.ABS_RX -> 0 <= ev_value ev <= 1023).

Definition key_in_source_range (r : Ready) : Prop :=
  match r with
  | Evdev (Some batch) => Forall in_source_range batch
  | _ => True
  end.

(** Membership in one of the code lists, as a disjunction of equations. *)
Ltac code_cases :=
  unfold stick_outputs, stick_inputs, trigger_outputs, hat_axes in *;
  rewrite ?elem_of_cons, ?elem_of_nil in *.

(** ** Encoding a reading

    The inverse of the decoder's unpacking, as [struct.pack("<H", x)]
    lays a 16-bit value out: low byte first. *)

Definition byte_of (z : Z) : byte := default x00 (Byte.of_N (Z.to_N z)).

Definition pack_le_H (x : Z) : list byte :=
  [ byte_of (x mod 256); byte_of (x / 256 mod 256) ].

(** ** Steps of the event loop *)

(** The output stick channel that an input axis code feeds. *)
Definition stick_route (code : Z) : option Z :=
  if bool_decide (code = e.ABS_X) then Some e.ABS_X
  else if bool_decide (code = e.ABS_Y) then Some e.ABS_Y
  else if bool_decide (code = e.ABS_Z) then Some e.ABS_RX
  else if bool_decide (code = e.ABS_RZ) then Some e.ABS_RY
  else None.

(** The input axis codes that some branch of the loop acts on. *)
Definition handled_abs : list Z :=
  [ e.ABS_X; e.ABS_Y; e.ABS_RX; e.ABS_Z; e.ABS_RZ; e.ABS_HAT0X; e.ABS_HAT0Y ].

Definition button_ops (ev : InputEvent) : list SinkOp :=
  let out := default (ev_code ev) (BUTTON_REMAP !! ev_code ev) in
  if bool_decide (out ∈ VIRTUAL_BUTTONS) then [Write e.EV_KEY out (ev_value ev)] else [].

(** The state once a hat event's value is stored. *)
Definition after_hat (st : Engine) (ev : InputEvent) : Engine :=
  if bool_decide (ev_code ev = e.ABS_HAT0X)
  then set_hat_x st (ev_value ev) else set_hat_y st (ev_value ev).

(** What one event does, branch by branch. *)
Inductive event_step (st : Engine) (ev : InputEvent) : Engine -> list SinkOp -> Prop :=
| step_key :
    ev_type ev = e.EV_KEY ->
    event_step st ev st (button_ops ev)
| step_stick (axis : Z) :
    ev_type ev = e.EV_ABS -> stick_route (ev_code ev) = Some axis ->
    event_step st ev
      (set_last_stick st (apply_stick_filter axis (ev_value ev) (last_stick st)).2)
      (forward axis (apply_stick_filter axis (ev_value ev) (last_stick st)).1)
| step_l2 :
    ev_type ev = e.EV_ABS -> ev_code ev = e.ABS_RX -> ev_value ev <> last_l2 st ->
    event_step st ev (set_last_l2 st (ev_value ev)) [Write e.EV_ABS e.ABS_Z (ev_value ev)]
| step_l2_same :
    ev_type ev = e.EV_ABS -> ev_code ev = e.ABS_RX -> ev_value ev = last_l2 st ->
    event_step st ev st []
| step_hat :
    is_hat_event ev ->
    event_step st ev
      (set_last_dpad (after_hat st ev)
         (store_all (dpad_items (hat_x (after_hat st ev)) (hat_y (after_hat st ev)))
                    (last_dpad st)))
      (key_write <$> dpad_changes
         (dpad_items (hat_x (after_hat st ev)) (hat_y (after_hat st ev))) (last_dpad st))
| step_ignored :
    ev_type ev <> e.EV_KEY ->
    (ev_type ev = e.EV_ABS -> ev_code ev ∉ handled_abs) ->
    event_step st ev st [].

(** ** Traces *)

(** The values written to one channel, oldest first. *)
Definition channel_values (t c : Z) (ops : list SinkOp) : list Z :=
  omap (fun op => match op with
                  | Write t' c' v => if bool_decide (t' = t /\ c' = c) then Some v else None
                  | Syn => None
                  end) ops.

(** Each value stands in relation [R] to the one before it; [prev] is the
    value before the first, if any. *)
Fixpoint chain (R : Z -> Z -> Prop) (prev : option Z) (vs : list Z) : Prop :=
  match vs with
  | [] => True
  | v :: rest => (forall p, prev = Some p -> R p v) /\ chain R (Some v) rest
  end.

(** The last value of [vs], or [prev] when there is none. *)
Definition last_or (prev : option Z) (vs : list Z) : option Z :=
  match last vs with
  | Some v => Some v
  | None => prev
  end.

Definition differs (p v : Z) : Prop := v <> p.

(** Successive accepted values of a stick channel: never the same twice,
    and a nonzero one at least the jitter threshold from its predecessor. *)
Definition stick_move (axis p v : Z) : Prop :=
  v <> p /\ (v <> 0 -> jitter axis <= Z.abs (v - p)).

(** The commands kept when the frame commits are left out. *)
Definition writes_of (ops : list SinkOp) : list SinkOp :=
  filter (fun op => is_syn op = false) ops.

(** ** Invariants of the engine state *)

(** [last_stick] holds entries for output stick channels only, each zero
    or at or beyond the deadzone of its profile. *)
Definition stick_inv (st : Engine) : Prop :=
  forall axis v, last_stick st !! axis = Some v ->
    axis ∈ stick_outputs /\ (v = 0 \/ deadzone axis <= Z.abs v).

(** [last_dpad] is the state derived from the current hat position, and
    has no other entries. *)
Definition dpad_sync (st : Engine) : Prop :=
  (forall btn state, (btn, state) ∈ dpad_items (hat_x st) (hat_y st) ->
                     last_dpad st !! btn = Some state) /\
  (forall btn, is_Some (last_dpad st !! btn) -> btn ∈ dpad_buttons).

(** ** What was sent and what the engine remembers *)

(** The two trigger channels: no value twice in a row, the engine holds
    the values sent last, and the right-trigger one is within range. *)
Definition trigger_trace (st : Engine) (tr : list SinkOp) : Prop :=
  (chain differs None (channel_values e.EV_ABS e.ABS_Z tr) /\
   last_or None (channel_values e.EV_ABS e.ABS_Z tr) = Some (last_l2 st)) /\
  (chain differs None (channel_values e.EV_ABS e.ABS_RZ tr) /\
   last_or None (channel_values e.EV_ABS e.ABS_RZ tr) = Some (last_r2 st)) /\
  0 <= last_r2 st <= 1023.

(** One stick channel: successive values are moves, and the filter holds
    the value sent last. *)
Definition stick_trace (c : Z) (st : Engine) (tr : list SinkOp) : Prop :=
  chain (stick_move c) None (channel_values e.EV_ABS c tr) /\
  last_or None (channel_values e.EV_ABS c tr) = last_stick st !! c.

(** ** Routing *)

(** The input axis codes and the output channels they are written to. *)
Definition routes_stick (code c : Z) : Prop :=
  (code = e.ABS_X /\ c = e.ABS_X) \/ (code = e.ABS_Y /\ c = e.ABS_Y) \/
  (code = e.ABS_Z /\ c = e.ABS_RX) \/ (code = e.ABS_RZ /\ c = e.ABS_RY).

(** The two halves of [dpad_items]: the buttons of each hat axis. *)
Definition x_items (hx : Z) : list (Z * Z) :=
  [ (e.BTN_DPAD_LEFT,  if bool_decide (hx = -1) then 1 else 0);
    (e.BTN_DPAD_RIGHT, if bool_decide (hx = 1) then 1 else 0) ].

Definition y_items (hy : Z) : list (Z * Z) :=
  [ (e.BTN_DPAD_UP,    if bool_decide (hy = -1) then 1 else 0);
    (e.BTN_DPAD_DOWN,  if bool_decide (hy = 1) then 1 else 0) ].

(** The buttons a hat axis drives, and its position before an event. *)
Definition hat_buttons (code : Z) : list Z :=
  if bool_decide (code = e.ABS_HAT0X)
  then [ e.BTN_DPAD_LEFT; e.BTN_DPAD_RIGHT ]
  else [ e.BTN_DPAD_UP; e.BTN_DPAD_DOWN ].

Definition hat_position (st : Engine) (code : Z) : Z :=
  if bool_decide (code = e.ABS_HAT0X) then hat_x st else hat_y st.

(** * Properties *)

(** ** Report decoder *)

Section ReportDecoder.

Lemma byte_val_range (b : byte) : 0 <= byte_val b < 256.
Proof.
  unfold byte_val. pose proof (Byte.to_N_bounded b) as H. lia.
Qed.

Lemma byte_val_x06 (b : byte) : byte_val b = 0x06 <-> b = x06.
Proof.
  split.
  - intros H. unfold byte_val in H.
    assert (Hn : Byte.to_N b = Byte.to_N x06) by (change (Byte.to_N x06) with 6%N; lia).
    pose proof (Byte.of_to_N b) as Hb. rewrite Hn, Byte.of_to_N in Hb.
    congruence.
  - intros ->. reflexivity.
Qed.

(** On two bytes, or-ing the shifted high byte is adding 256 times it. *)
Lemma le_H_value (lo hi : byte) :
  Z.lor (byte_val lo) (Z.shiftl (byte_val hi) 8) = byte_val lo + 256 * byte_val hi.
Proof.
  pose proof (byte_val_range lo) as Hlo.
  pose proof (byte_val_range hi) as Hhi.
  rewrite Z.shiftl_mul_pow2 by lia.
  change (2 ^ 8) with 256.
  assert (Hland : Z.land (byte_val lo) (byte_val hi * 256) = 0).
  { apply Z.bits_inj'. intros n Hn.
    rewrite Z.land_spec, Z.bits_0.
    destruct (Z.lt_ge_cases n 8) as [Hlt|Hge].
    - change 256 with (2 ^ 8). rewrite Z.mul_pow2_bits_low by lia.
      apply andb_false_r.
    - rewrite (Z.bits_above_log2 (byte_val lo) n); [reflexivity | lia |].
      destruct (Z.eq_dec (byte_val lo) 0) as [->|Hnz]; [simpl; lia|].
      apply Z.log2_lt_pow2; [lia|].
      apply Z.lt_le_trans with (2 ^ 8); [simpl; lia|].
      apply Z.pow_le_mono_r; lia. }
  rewrite <- Z.lxor_lor by exact Hland.
  rewrite <- Z.add_nocarry_lxor by exact Hland.
  lia.
Qed.

(** The decoder never raises: the length test makes the two bytes it
    unpacks exist. *)
Lemma parse_report6_total (report : list byte) :
  parse_report6 report = Ret None \/
  exists raw, parse_report6 report = Ret (Some raw).
Proof.
  destruct report as [|b0 rest]; [left; reflexivity|].
  cbn [parse_report6].
  case_bool_decide; [left; reflexivity|].
  case_bool_decide; [left; reflexivity|].
  right. unfold unpack_from_le_H.
  destruct (lookup_lt_is_Some_2 (b0 :: rest) 9) as [lo ->]; [lia|].
  destruct (lookup_lt_is_Some_2 (b0 :: rest) 10) as [hi ->]; [lia|].
  eexists. reflexivity.
Qed.

End ReportDecoder.

(** C6. The decoder answers [None] exactly on an empty report, a report
    shorter than 14 bytes, or one whose first byte is not 0x06; on every
    other report it answers the unsigned 16-bit little-endian integer held
    in bytes 9 and 10, and it never raises. *)
Theorem C6_parse_report6 (report : list byte) :
  (parse_report6 report = Ret None <-> not_applicable report) /\
  (~ not_applicable report ->
   exists lo hi,
     report !! 9%nat = Some lo /\ report !! 10%nat = Some hi /\
     parse_report6 report = Ret (Some (byte_val lo + 256 * byte_val hi)) /\
     0 <= byte_val lo + 256 * byte_val hi <= 0xFFFF).
Proof.
  unfold not_applicable.
  destruct report as [|b0 rest]; simpl.
  { split; [split; auto | intros H; exfalso; apply H; auto]. }
  destruct (Byte.byte_eq_dec b0 x06) as [->|Hb0].
  2:{ rewrite bool_decide_eq_true_2 by (rewrite byte_val_x06; exact Hb0).
      split.
      - split; [intros _; right; right; eauto | reflexivity].
      - intros H. exfalso. apply H. right; right. eauto. }
  rewrite bool_decide_eq_false_2 by (intros H; apply H; reflexivity).
  destruct (decide (S (length rest) < 14)%nat) as [Hlen|Hlen].
  { rewrite bool_decide_eq_true_2 by lia.
    split; [split; auto | intros H; exfalso; apply H; auto]. }
  rewrite bool_decide_eq_false_2 by lia.
  assert (Hlo : is_Some ((x06 :: rest) !! 9%nat)) by (apply lookup_lt_is_Some; simpl; lia).
  assert (Hhi : is_Some ((x06 :: rest) !! 10%nat)) by (apply lookup_lt_is_Some; simpl; lia).
  destruct Hlo as [lo Hlo], Hhi as [hi Hhi].
  unfold unpack_from_le_H. rewrite Hlo, Hhi. simpl. rewrite le_H_value.
  split.
  - split; [discriminate|].
    intros [H|[H|(b & Hb & Hne)]]; [discriminate | lia |].
    injection Hb as <-. congruence.
  - intros _. exists lo, hi.
    pose proof (byte_val_range lo). pose proof (byte_val_range hi).
    repeat split; auto; lia.
Qed.

(** A well-typed 14-byte report, decoded. *)
Lemma C6_parse_report6_witness :
  parse_report6 [x06; x00; x00; x00; x00; x00; x00; x00; x00; x34; x12; x00; x00; x00]
  = Ret (Some 0x1234).
Proof.
  destruct (proj2 (C6_parse_report6
    [x06; x00; x00; x00; x00; x00; x00; x00; x00; x34; x12; x00; x00; x00]))
    as (lo & hi & Hlo & Hhi & Hp & _).
  - intros [H|[H|(b & Hb & Hne)]].
    + discriminate H.
    + simpl in H. lia.
    + simpl in Hb. injection Hb as <-. apply Hne. reflexivity.
  - simpl in Hlo, Hhi. injection Hlo as <-. injection Hhi as <-. exact Hp.
Defined.

(** ** Trigger scaling *)

Section TriggerScaling.

Lemma all_below_spec (bits : nat) (P : Z -> bool) :
  forall base, all_below bits base P = true ->
  forall z, base <= z < base + 2 ^ Z.of_nat bits -> P z = true.
Proof.
  induction bits as [|n IH]; intros base H z Hz.
  - simpl in *. assert (z = base) as -> by lia. exact H.
  - cbn [all_below] in H. apply andb_prop in H as [H1 H2].
    rewrite Nat2Z.inj_succ, Z.pow_succ_r in Hz by lia.
    destruct (Z.lt_ge_cases z (base + 2 ^ Z.of_nat n)).
    + apply (IH base H1). lia.
    + apply (IH _ H2). lia.
Qed.

Lemma returns_spec (m : exc Z) (z : Z) : returns m z = true -> m = Ret z.
Proof.
  destruct m as [r|x]; simpl; [|discriminate].
  intros H. apply Z.eqb_eq in H. congruence.
Qed.

(** The binary64 computation agrees with the integer formula on each of
    the 32768 deltas the clamp lets through. *)
Lemma scale_delta_table :
  all_below 15 0 (fun d => returns (scale_delta d R2_MAX) (scaled d)) = true.
Proof. vm_cast_no_check (eq_refl true). Qed.

Lemma scale_delta_scaled (d : Z) :
  0 <= d <= 0x7FFF -> scale_delta d R2_MAX = Ret (scaled d).
Proof.
  intros Hd. apply returns_spec.
  apply (all_below_spec 15 _ 0 scale_delta_table).
  change (2 ^ Z.of_nat 15) with 32768. lia.
Qed.

Lemma clamp_delta_range (v : Z) : 0 <= clamp_delta v <= 0x7FFF.
Proof. unfold clamp_delta. lia. Qed.

Lemma centered_u16_to_trigger_clamp (v max_val : Z) :
  centered_u16_to_trigger v max_val = scale_delta (clamp_delta v) max_val.
Proof.
  unfold centered_u16_to_trigger, scale_delta, clamp_delta.
  repeat case_bool_decide; f_equal; try lia.
  all: match goal with |- int_truediv ?a _ = int_truediv ?b _ =>
         replace b with a by lia; reflexivity end.
Qed.

Lemma centered_u16_to_trigger_scaled (v : Z) :
  centered_u16_to_trigger v R2_MAX = Ret (scaled (clamp_delta v)).
Proof.
  rewrite centered_u16_to_trigger_clamp.
  apply scale_delta_scaled, clamp_delta_range.
Qed.

Lemma scaled_mono (a b : Z) : a <= b -> scaled a <= scaled b.
Proof.
  intros H. unfold scaled. apply Z.div_le_mono; lia.
Qed.

Lemma scaled_nearest (d : Z) :
  2 * Z.abs (0x7FFF * scaled d - d * 1023) <= 0x7FFF.
Proof.
  unfold scaled.
  pose proof (Z.div_mod (2 * d * 1023 + 0x7FFF) (2 * 0x7FFF) ltac:(lia)) as Hdm.
  pose proof (Z.mod_pos_bound (2 * d * 1023 + 0x7FFF) (2 * 0x7FFF) ltac:(lia)) as Hb.
  lia.
Qed.

Lemma scaled_range (d : Z) : 0 <= d <= 0x7FFF -> 0 <= scaled d <= 1023.
Proof.
  intros Hd. pose proof (scaled_nearest d) as Hn. lia.
Qed.

End TriggerScaling.

(** C2. With [MAX = 1023]: the conversion gives 0 below 0x8000, is
    non-decreasing from 0x8000 on, gives 0 at 0x8000 and exactly 1023 at
    0x8000 + 0x7FFF; for every integer input it returns (no exception)
    the integer nearest to [delta * 1023 / 0x7FFF], where [delta] is the
    distance above 0x8000 clamped to [0, 0x7FFF], so the result stays in
    [0, 1023] and is 1023 for every input from 0xFFFF on. *)
Theorem C2_centered_u16_to_trigger :
  (forall v, v < 0x8000 -> centered_u16_to_trigger v R2_MAX = Ret 0) /\
  (forall v w, 0x8000 <= v -> v <= w ->
     exists a b, centered_u16_to_trigger v R2_MAX = Ret a /\
                 centered_u16_to_trigger w R2_MAX = Ret b /\ a <= b) /\
  centered_u16_to_trigger 0x8000 R2_MAX = Ret 0 /\
  centered_u16_to_trigger (0x8000 + 0x7FFF) R2_MAX = Ret R2_MAX /\
  (forall v, exists r,
     centered_u16_to_trigger v R2_MAX = Ret r /\
     0 <= r <= R2_MAX /\
     2 * Z.abs (0x7FFF * r - clamp_delta v * R2_MAX) <= 0x7FFF) /\
  (forall v, 0x8000 + 0x7FFF <= v -> centered_u16_to_trigger v R2_MAX = Ret R2_MAX).
Proof.
  refine (conj _ (conj _ (conj _ (conj _ (conj _ _))))).
  - intros v Hv. rewrite centered_u16_to_trigger_scaled.
    replace (clamp_delta v) with 0 by (unfold clamp_delta; lia). reflexivity.
  - intros v w Hv Hvw. exists (scaled (clamp_delta v)), (scaled (clamp_delta w)).
    rewrite !centered_u16_to_trigger_scaled.
    refine (conj eq_refl (conj eq_refl _)).
    apply scaled_mono. unfold clamp_delta. lia.
  - rewrite centered_u16_to_trigger_scaled. reflexivity.
  - rewrite centered_u16_to_trigger_scaled. reflexivity.
  - intros v. rewrite centered_u16_to_trigger_scaled.
    exists (scaled (clamp_delta v)). refine (conj eq_refl (conj _ _)).
    + apply scaled_range, clamp_delta_range.
    + apply scaled_nearest.
  - intros v Hv. rewrite centered_u16_to_trigger_scaled.
    replace (clamp_delta v) with 0x7FFF by (unfold clamp_delta; lia). reflexivity.
Qed.

(** Below centre, half way and past full scale. *)
Lemma C2_centered_u16_to_trigger_witness :
  centered_u16_to_trigger 0x1234 R2_MAX = Ret 0 /\
  (exists a b, centered_u16_to_trigger 0xC000 R2_MAX = Ret a /\
               centered_u16_to_trigger 0xFFFF R2_MAX = Ret b /\ a <= b) /\
  centered_u16_to_trigger 0x12345 R2_MAX = Ret R2_MAX.
Proof.
  destruct C2_centered_u16_to_trigger as (Hlow & Hmono & _ & _ & _ & Hhigh).
  split; [apply Hlow; lia|].
  split; [apply Hmono; lia | apply Hhigh; lia].
Defined.

(** ** Axis filter *)

Section AxisFilter.

Lemma jitter_pos (axis : Z) : 0 < jitter axis.
Proof. unfold jitter, RIGHT_JITTER, LEFT_JITTER. case_bool_decide; lia. Qed.

Lemma in_right_stick (axis : Z) :
  axis ∈ [e.ABS_RX; e.ABS_RY] <-> axis = e.ABS_RX \/ axis = e.ABS_RY.
Proof. rewrite !elem_of_cons, elem_of_nil. tauto. Qed.

(** The filter, by cases on the previous accepted value. *)
Lemma apply_stick_filter_cases (axis raw : Z) (last : gmap Z Z) :
  apply_stick_filter axis raw last =
  match last !! axis with
  | Some prev =>
      if bool_decide (is_jitter axis (post_deadzone axis raw) prev \/
                      is_rest_repeat (post_deadzone axis raw) prev)
      then (None, last)
      else (Some (post_deadzone axis raw), <[axis := post_deadzone axis raw]> last)
  | None => (Some (post_deadzone axis raw), <[axis := post_deadzone axis raw]> last)
  end.
Proof.
  unfold is_jitter, is_rest_repeat, apply_stick_filter, post_deadzone, deadzone, jitter.
  destruct (last !! axis) as [prev|]; repeat case_bool_decide; simpl;
    rewrite ?in_right_stick in *; try reflexivity; exfalso; tauto.
Qed.

Lemma apply_stick_filter_suppressed (axis raw : Z) (last : gmap Z Z) :
  (apply_stick_filter axis raw last).1 = None ->
  (apply_stick_filter axis raw last).2 = last.
Proof.
  rewrite apply_stick_filter_cases.
  destruct (last !! axis); [case_bool_decide|]; simpl; congruence.
Qed.

Lemma apply_stick_filter_accepted (axis raw v : Z) (last : gmap Z Z) :
  (apply_stick_filter axis raw last).1 = Some v ->
  v = post_deadzone axis raw /\
  (apply_stick_filter axis raw last).2 = <[axis := v]> last.
Proof.
  rewrite apply_stick_filter_cases.
  destruct (last !! axis); [case_bool_decide|]; simpl; intros Hret;
    try discriminate; inversion Hret; subst; auto.
Qed.

(** Whatever the filter did with a raw value, it declines the same raw
    value when it comes again. *)
Lemma apply_stick_filter_again (axis raw : Z) (last : gmap Z Z) :
  apply_stick_filter axis raw (apply_stick_filter axis raw last).2 =
  (None, (apply_stick_filter axis raw last).2).
Proof.
  destruct (apply_stick_filter axis raw last).1 as [v|] eqn:Hfst.
  - apply apply_stick_filter_accepted in Hfst as [Hv ->].
    rewrite apply_stick_filter_cases, lookup_insert_eq, <- Hv.
    rewrite bool_decide_eq_true_2; [reflexivity|].
    unfold is_jitter, is_rest_repeat. pose proof (jitter_pos axis).
    destruct (Z.eq_dec v 0); [right | left]; split; auto. lia.
  - rewrite (apply_stick_filter_suppressed _ _ _ Hfst).
    destruct (apply_stick_filter axis raw last) as [r l'] eqn:Hcall.
    simpl in Hfst. subst r.
    pose proof (apply_stick_filter_suppressed axis raw last) as Hl.
    rewrite Hcall in Hl. simpl in Hl. rewrite Hl by reflexivity. reflexivity.
Qed.

End AxisFilter.

(** C3. For every axis, raw value and filter state: (1) the filter works
    with the post-deadzone value, which is zero when the raw magnitude is
    below the profile's deadzone and the raw value otherwise; (2) with a
    previous accepted value, a nonzero post-deadzone value closer to it
    than the jitter threshold gives "no update"; (3) a zero post-deadzone
    value after a previous accepted zero gives "no update"; (4) in every
    other case the post-deadzone value is stored for the axis and
    returned. *)
Theorem C3_apply_stick_filter (axis raw : Z) (last : gmap Z Z) :
  (Z.abs raw < deadzone axis -> post_deadzone axis raw = 0) /\
  (deadzone axis <= Z.abs raw -> post_deadzone axis raw = raw) /\
  (forall prev, last !! axis = Some prev ->
     is_jitter axis (post_deadzone axis raw) prev ->
     apply_stick_filter axis raw last = (None, last)) /\
  (forall prev, last !! axis = Some prev ->
     is_rest_repeat (post_deadzone axis raw) prev ->
     apply_stick_filter axis raw last = (None, last)) /\
  (~ (exists prev, last !! axis = Some prev /\
        (is_jitter axis (post_deadzone axis raw) prev \/
         is_rest_repeat (post_deadzone axis raw) prev)) ->
   apply_stick_filter axis raw last =
   (Some (post_deadzone axis raw), <[axis := post_deadzone axis raw]> last)).
Proof.
  refine (conj _ (conj _ (conj _ (conj _ _)))).
  - intros H. unfold post_deadzone. rewrite bool_decide_eq_true_2; [reflexivity | exact H].
  - intros H. unfold post_deadzone. rewrite bool_decide_eq_false_2; [reflexivity | lia].
  - intros prev Hprev Hj. rewrite apply_stick_filter_cases, Hprev.
    rewrite bool_decide_eq_true_2; [reflexivity | left; exact Hj].
  - intros prev Hprev Hz. rewrite apply_stick_filter_cases, Hprev.
    rewrite bool_decide_eq_true_2; [reflexivity | right; exact Hz].
  - intros Hno. rewrite apply_stick_filter_cases.
    destruct (last !! axis) as [prev|]; [|reflexivity].
    rewrite bool_decide_eq_false_2; [reflexivity|].
    intros H. apply Hno. exists prev. auto.
Qed.

(** Left stick X with 4000 accepted before: 1000 falls in the deadzone and
    is accepted as 0; 4050 is jitter; a fresh 0 after 0 is a repeat. *)
Lemma C3_apply_stick_filter_witness :
  post_deadzone e.ABS_X 1000 = 0 /\
  post_deadzone e.ABS_X 4050 = 4050 /\
  apply_stick_filter e.ABS_X 4050 {[ e.ABS_X := 4000 ]} = (None, {[ e.ABS_X := 4000 ]}) /\
  apply_stick_filter e.ABS_X 1000 {[ e.ABS_X := 0 ]} = (None, {[ e.ABS_X := 0 ]}) /\
  apply_stick_filter e.ABS_X 1000 {[ e.ABS_X := 4000 ]} =
    (Some 0, <[ e.ABS_X := 0 ]> {[ e.ABS_X := 4000 ]}).
Proof.
  refine (conj _ (conj _ (conj _ (conj _ _)))).
  - apply (proj1 (C3_apply_stick_filter e.ABS_X 1000 ∅)). vm_compute. reflexivity.
  - apply (proj1 (proj2 (C3_apply_stick_filter e.ABS_X 4050 ∅))). vm_compute. discriminate.
  - apply (proj1 (proj2 (proj2 (C3_apply_stick_filter e.ABS_X 4050 {[ e.ABS_X := 4000 ]}))) 4000).
    + reflexivity.
    + split; vm_compute; [discriminate | reflexivity].
  - apply (proj1 (proj2 (proj2 (proj2 (C3_apply_stick_filter e.ABS_X 1000 {[ e.ABS_X := 0 ]})))) 0).
    + reflexivity.
    + split; reflexivity.
  - apply (proj2 (proj2 (proj2 (proj2 (C3_apply_stick_filter e.ABS_X 1000 {[ e.ABS_X := 4000 ]}))))).
    intros (prev & Hprev & [[Hnz _]|[_ Hp]]).
    + apply Hnz. reflexivity.
    + vm_compute in Hprev. congruence.
Defined.

(** C8. The same raw value fed twice in a row is accepted at most once:
    whatever the first call did, the second returns "no update" and leaves
    the state as the first call left it. *)
Theorem C8_apply_stick_filter_twice (axis raw : Z) (last : gmap Z Z) :
  let first := apply_stick_filter axis raw last in
  let second := apply_stick_filter axis raw first.2 in
  second = (None, first.2) /\
  (length (omap id [first.1; second.1]) <= 1)%nat.
Proof.
  intros first second. subst second first.
  rewrite apply_stick_filter_again. split; [reflexivity|].
  simpl. destruct (apply_stick_filter axis raw last).1; simpl; lia.
Qed.

(** C10. A suppressed update leaves the state map as it was, and an axis
    with no entry in the state is always accepted: its post-deadzone value
    is returned and stored. *)
Theorem C10_apply_stick_filter_state (axis raw : Z) (last : gmap Z Z) :
  ((apply_stick_filter axis raw last).1 = None ->
   (apply_stick_filter axis raw last).2 = last) /\
  (last !! axis = None ->
   apply_stick_filter axis raw last =
   (Some (post_deadzone axis raw), <[axis := post_deadzone axis raw]> last)).
Proof.
  split.
  - apply apply_stick_filter_suppressed.
  - intros Hnone. rewrite apply_stick_filter_cases, Hnone. reflexivity.
Qed.

(** Jitter on a stored right-stick value, and a first reading of an axis. *)
Lemma C10_apply_stick_filter_state_witness :
  (apply_stick_filter e.ABS_RX 2500 {[ e.ABS_RX := 2400 ]}).2 = {[ e.ABS_RX := 2400 ]} /\
  apply_stick_filter e.ABS_Y 100 {[ e.ABS_RX := 2400 ]} =
    (Some 0, <[ e.ABS_Y := 0 ]> {[ e.ABS_RX := 2400 ]}).
Proof.
  split.
  - apply (proj1 (C10_apply_stick_filter_state e.ABS_RX 2500 {[ e.ABS_RX := 2400 ]})).
    vm_compute. reflexivity.
  - apply (proj2 (C10_apply_stick_filter_state e.ABS_Y 100 {[ e.ABS_RX := 2400 ]})).
    vm_compute. reflexivity.
Defined.

(** ** D-pad synthesizer *)

Section DpadSynthesizer.

Lemma dpad_changes_insert_fresh (items : list (Z * Z)) (last : gmap Z Z) (btn state : Z) :
  btn ∉ items.*1 ->
  dpad_changes items (<[btn := state]> last) = dpad_changes items last.
Proof.
  unfold dpad_changes. induction items as [|[b s] rest IH]; intros Hfresh; [reflexivity|].
  rewrite fmap_cons, not_elem_of_cons in Hfresh. destruct Hfresh as [Hne Hrest].
  simpl in Hne. rewrite !filter_cons. simpl.
  rewrite lookup_insert_ne by congruence.
  rewrite (IH Hrest). reflexivity.
Qed.

Lemma store_all_fresh (items : list (Z * Z)) (last : gmap Z Z) (btn : Z) :
  btn ∉ items.*1 -> store_all items last !! btn = last !! btn.
Proof.
  revert last. unfold store_all.
  induction items as [|[b s] rest IH]; intros last Hfresh; [reflexivity|].
  rewrite fmap_cons, not_elem_of_cons in Hfresh. destruct Hfresh as [Hne Hrest].
  simpl in *. rewrite (IH _ Hrest). apply lookup_insert_ne. congruence.
Qed.

Lemma store_all_lookup (items : list (Z * Z)) (last : gmap Z Z) (btn state : Z) :
  NoDup items.*1 -> (btn, state) ∈ items ->
  store_all items last !! btn = Some state.
Proof.
  revert last. induction items as [|[b s] rest IH]; intros last Hnd Hin.
  - inversion Hin.
  - rewrite fmap_cons in Hnd. apply NoDup_cons in Hnd as [Hfresh Hnd].
    apply elem_of_cons in Hin as [Heq|Hin].
    + injection Heq as -> ->. change (store_all ((b, s) :: rest) last)
        with (store_all rest (<[b := s]> last)).
      rewrite store_all_fresh by exact Hfresh. apply lookup_insert_eq.
    + apply (IH _ Hnd Hin).
Qed.

(** The loop of [apply_dpad] over items with distinct buttons that all
    have an entry: it writes the changed ones, in order, and stores every
    state. *)
Lemma dpad_loop_spec (items : list (Z * Z)) :
  forall last : gmap Z Z,
  NoDup items.*1 ->
  (forall btn, btn ∈ items.*1 -> is_Some (last !! btn)) ->
  dpad_loop items last =
  Ret (store_all items last, key_write <$> dpad_changes items last).
Proof.
  induction items as [|[btn state] rest IH]; intros last Hnd Hkeys; [reflexivity|].
  rewrite fmap_cons in Hnd. apply NoDup_cons in Hnd as [Hfresh Hnd].
  destruct (Hkeys btn) as [old Hold]; [rewrite fmap_cons; left|].
  cbn [dpad_loop]. rewrite Hold.
  unfold dpad_changes. rewrite filter_cons. simpl.
  destruct (decide (old = state)) as [->|Hne].
  - rewrite bool_decide_eq_false_2 by (intros H; apply H; reflexivity).
    rewrite decide_False by (rewrite Hold; intros H; apply H; reflexivity).
    rewrite IH; [|exact Hnd|].
    + change (store_all ((btn, state) :: rest) last)
        with (store_all rest (<[btn := state]> last)).
      rewrite (insert_id last btn state Hold). reflexivity.
    + intros b Hb. apply Hkeys. rewrite fmap_cons. right. exact Hb.
  - rewrite bool_decide_eq_true_2 by exact Hne.
    rewrite decide_True by (rewrite Hold; congruence).
    rewrite IH; [|exact Hnd|].
    + simpl. fold (dpad_changes rest (<[btn := state]> last)).
      rewrite dpad_changes_insert_fresh by exact Hfresh. reflexivity.
    + intros b Hb. apply lookup_insert_is_Some'. right.
      apply Hkeys. rewrite fmap_cons. right. exact Hb.
Qed.

Lemma dpad_items_keys (hx hy : Z) : (dpad_items hx hy).*1 = dpad_buttons.
Proof. reflexivity. Qed.

Lemma dpad_buttons_NoDup : NoDup dpad_buttons.
Proof. apply (bool_decide_unpack _). vm_compute. exact I. Qed.

Lemma apply_dpad_spec (st : Engine) :
  dpad_wf st ->
  apply_dpad st =
  Ret (set_last_dpad st (store_all (dpad_items (hat_x st) (hat_y st)) (last_dpad st)),
       key_write <$> dpad_changes (dpad_items (hat_x st) (hat_y st)) (last_dpad st)).
Proof.
  intros Hwf. unfold apply_dpad.
  rewrite dpad_loop_spec; [reflexivity | |].
  - rewrite dpad_items_keys. apply dpad_buttons_NoDup.
  - rewrite dpad_items_keys. exact Hwf.
Qed.

Lemma store_all_dpad_wf (st : Engine) (hx hy : Z) (m : gmap Z Z) :
  dpad_wf (set_last_dpad st (store_all (dpad_items hx hy) m)).
Proof.
  intros btn Hbtn. unfold set_last_dpad. cbn [last_dpad].
  rewrite <- (dpad_items_keys hx hy) in Hbtn.
  apply list_elem_of_fmap in Hbtn as ([b s] & -> & Hin).
  exists s. cbn [fst]. apply store_all_lookup; [|exact Hin].
  rewrite dpad_items_keys. apply dpad_buttons_NoDup.
Qed.

Lemma initial_dpad_wf : dpad_wf initial.
Proof.
  intros btn Hbtn. unfold dpad_buttons in Hbtn.
  rewrite !elem_of_cons, elem_of_nil in Hbtn.
  destruct Hbtn as [->|[->|[->|[->|[]]]]]; vm_compute; eauto.
Qed.

(** What a hat event does in a state whose [last_dpad] is complete. *)
Lemma on_event_hat (st : Engine) (ev : InputEvent) :
  dpad_wf st -> is_hat_event ev ->
  let st1 := if bool_decide (ev_code ev = e.ABS_HAT0X)
             then set_hat_x st (ev_value ev) else set_hat_y st (ev_value ev) in
  on_event st ev =
  Ret (set_last_dpad st1 (store_all (dpad_items (hat_x st1) (hat_y st1)) (last_dpad st)),
       key_write <$> dpad_changes (dpad_items (hat_x st1) (hat_y st1)) (last_dpad st)).
Proof.
  intros Hwf [Hty Hcode]. unfold on_event.
  rewrite Hty. rewrite bool_decide_eq_false_2 by discriminate.
  rewrite bool_decide_eq_true_2 by reflexivity.
  destruct Hcode as [Hc|Hc]; rewrite Hc; simpl.
  - rewrite (apply_dpad_spec (set_hat_x st (ev_value ev))) by exact Hwf. reflexivity.
  - rewrite (apply_dpad_spec (set_hat_y st (ev_value ev))) by exact Hwf. reflexivity.
Qed.

End DpadSynthesizer.

(** C5. The derived states are left = on iff the horizontal hat is -1,
    right = on iff it is 1, up = on iff the vertical hat is -1, down = on
    iff it is 1.  A hat event, in a state where [last_dpad] has its four
    entries, stores the hat value and writes exactly the buttons whose
    derived state differs from the one last sent, after which the state
    last sent is the derived one; this holds along every sequence of hat
    events, since the four entries stay.  From rest, the positions
    (0,0), (-1,0), (-1,0), (0,0) give two writes: left on at the second,
    left off at the fourth. *)
Theorem C5_dpad_synthesizer :
  (forall hx hy, exists l r u d,
     dpad_items hx hy =
       [ (e.BTN_DPAD_LEFT, l); (e.BTN_DPAD_RIGHT, r);
         (e.BTN_DPAD_UP, u); (e.BTN_DPAD_DOWN, d) ] /\
     on_iff l (hx = -1) /\ on_iff r (hx = 1) /\
     on_iff u (hy = -1) /\ on_iff d (hy = 1)) /\
  (forall st ev, dpad_wf st -> is_hat_event ev ->
     exists st',
       on_event st ev =
         Ret (st', key_write <$>
                   dpad_changes (dpad_items (hat_x st') (hat_y st')) (last_dpad st)) /\
       hat_x st' = (if bool_decide (ev_code ev = e.ABS_HAT0X) then ev_value ev else hat_x st) /\
       hat_y st' = (if bool_decide (ev_code ev = e.ABS_HAT0X) then hat_y st else ev_value ev) /\
       (forall btn state, (btn, state) ∈ dpad_items (hat_x st') (hat_y st') ->
                          last_dpad st' !! btn = Some state) /\
       dpad_wf st') /\
  (forall evs st, dpad_wf st -> Forall is_hat_event evs ->
     exists st' ops, for_each_event st evs = Ret (st', ops) /\ dpad_wf st') /\
  per_update initial [ (0, 0); (-1, 0); (-1, 0); (0, 0) ] =
    Ret [ []; [Write e.EV_KEY e.BTN_DPAD_LEFT 1]; []; [Write e.EV_KEY e.BTN_DPAD_LEFT 0] ].
Proof.
  assert (Hstep : forall st ev, dpad_wf st -> is_hat_event ev ->
     exists st',
       on_event st ev =
         Ret (st', key_write <$>
                   dpad_changes (dpad_items (hat_x st') (hat_y st')) (last_dpad st)) /\
       hat_x st' = (if bool_decide (ev_code ev = e.ABS_HAT0X) then ev_value ev else hat_x st) /\
       hat_y st' = (if bool_decide (ev_code ev = e.ABS_HAT0X) then hat_y st else ev_value ev) /\
       (forall btn state, (btn, state) ∈ dpad_items (hat_x st') (hat_y st') ->
                          last_dpad st' !! btn = Some state) /\
       dpad_wf st').
  { intros st ev Hwf Hhat.
    pose proof (on_event_hat st ev Hwf Hhat) as Hev. cbv zeta in Hev.
    eexists. split; [exact Hev|].
    unfold set_last_dpad. cbn [hat_x hat_y last_dpad].
    refine (conj _ (conj _ (conj _ _))).
    - case_bool_decide; reflexivity.
    - case_bool_decide; reflexivity.
    - intros btn state Hin. apply store_all_lookup; [|exact Hin].
      rewrite dpad_items_keys. apply dpad_buttons_NoDup.
    - apply (store_all_dpad_wf st). }
  refine (conj _ (conj Hstep (conj _ _))).
  - intros hx hy. unfold dpad_items, on_iff. do 4 eexists.
    split; [reflexivity|].
    repeat split; intros; case_bool_decide; congruence.
  - induction evs as [|ev evs IH]; intros st Hwf Hall.
    + exists st, []. split; [reflexivity | exact Hwf].
    + apply Forall_cons in Hall as [Hev Hall].
      destruct (Hstep st ev Hwf Hev) as (st1 & Hrun & _ & _ & _ & Hwf1).
      destruct (IH st1 Hwf1 Hall) as (st2 & ops2 & Hrest & Hwf2).
      cbn [for_each_event]. rewrite Hrun. cbn [bind]. rewrite Hrest. cbn [bind].
      eexists _, _. split; [reflexivity | exact Hwf2].
  - vm_compute. reflexivity.
Qed.

(** The hat moving left from rest: one write, left on. *)
Lemma C5_dpad_synthesizer_witness :
  exists st',
    on_event initial (abs_event e.ABS_HAT0X (-1)) =
      Ret (st', [Write e.EV_KEY e.BTN_DPAD_LEFT 1]) /\
    last_dpad st' !! e.BTN_DPAD_LEFT = Some 1.
Proof.
  destruct (proj1 (proj2 C5_dpad_synthesizer) initial (abs_event e.ABS_HAT0X (-1)))
    as (st' & Hrun & Hx & Hy & Hlast & _).
  - exact initial_dpad_wf.
  - split; [reflexivity | left; reflexivity].
  - exists st'. simpl in Hx, Hy. rewrite Hx, Hy in Hrun, Hlast. split.
    + exact Hrun.
    + apply Hlast. vm_compute. left.
Defined.

(** ** Button remapping *)

Section ButtonRemap.

(** Every output code of the table is a button of the virtual device. *)
Lemma BUTTON_REMAP_range (code out : Z) :
  BUTTON_REMAP !! code = Some out -> out ∈ VIRTUAL_BUTTONS.
Proof.
  assert (Hall : map_Forall (fun _ o => o ∈ VIRTUAL_BUTTONS) BUTTON_REMAP).
  { apply (bool_decide_unpack _). vm_compute. exact I. }
  intros Hlook. exact (Hall code out Hlook).
Qed.

Lemma on_event_key (st : Engine) (ev : InputEvent) :
  ev_type ev = e.EV_KEY ->
  on_event st ev =
  Ret (st, let out := default (ev_code ev) (BUTTON_REMAP !! ev_code ev) in
           if bool_decide (out ∈ VIRTUAL_BUTTONS)
           then [Write e.EV_KEY out (ev_value ev)] else []).
Proof.
  intros Hty. unfold on_event. rewrite Hty.
  rewrite bool_decide_eq_true_2 by reflexivity.
  cbv zeta. case_bool_decide; reflexivity.
Qed.

End ButtonRemap.

(** C1, counterexample. [BTN_START] is no key of the table, yet pressing it
    is forwarded: one write, not zero. *)
Lemma C1_unmapped_button_forwarded :
  BUTTON_REMAP !! e.BTN_START = None /\
  on_event initial (key_event e.BTN_START 1) =
    Ret (initial, [Write e.EV_KEY e.BTN_START 1]).
Proof. split; vm_compute; reflexivity. Qed.

(** C1, as the code has it. A button event whose code is a key of the table
    gives exactly one write, of the mapped code with the event's value.  A
    code that is no key of the table stands for itself
    ([BUTTON_REMAP.get(code, code)]): it gives exactly one write, of that
    same code and value, when it is one of the virtual device's buttons,
    and no write otherwise.  The engine state is untouched either way. *)
Theorem C1_button_remap (st : Engine) (ev : InputEvent) :
  ev_type ev = e.EV_KEY ->
  (forall out, BUTTON_REMAP !! ev_code ev = Some out ->
     on_event st ev = Ret (st, [Write e.EV_KEY out (ev_value ev)])) /\
  (BUTTON_REMAP !! ev_code ev = None -> ev_code ev ∈ VIRTUAL_BUTTONS ->
     on_event st ev = Ret (st, [Write e.EV_KEY (ev_code ev) (ev_value ev)])) /\
  (BUTTON_REMAP !! ev_code ev = None -> ev_code ev ∉ VIRTUAL_BUTTONS ->
     on_event st ev = Ret (st, [])).
Proof.
  intros Hty. rewrite (on_event_key st ev Hty). cbv zeta.
  refine (conj _ (conj _ _)).
  - intros out Hout. rewrite Hout. simpl.
    rewrite bool_decide_eq_true_2 by exact (BUTTON_REMAP_range _ _ Hout).
    reflexivity.
  - intros Hnone Hin. rewrite Hnone. simpl.
    rewrite bool_decide_eq_true_2 by exact Hin. reflexivity.
  - intros Hnone Hout. rewrite Hnone. simpl.
    rewrite bool_decide_eq_false_2 by exact Hout. reflexivity.
Qed.

(** R1 ([BTN_Z]) is remapped to [BTN_TR]; [BTN_SELECT] passes through;
    code 0x13f, unknown to the table and to the device, is dropped. *)
Lemma C1_button_remap_witness :
  on_event initial (key_event e.BTN_Z 1) = Ret (initial, [Write e.EV_KEY e.BTN_TR 1]) /\
  on_event initial (key_event e.BTN_SELECT 0) = Ret (initial, [Write e.EV_KEY e.BTN_SELECT 0]) /\
  on_event initial (key_event 0x13f 1) = Ret (initial, []).
Proof.
  refine (conj _ (conj _ _)).
  - apply (proj1 (C1_button_remap initial (key_event e.BTN_Z 1) eq_refl) e.BTN_TR).
    vm_compute. reflexivity.
  - apply (proj1 (proj2 (C1_button_remap initial (key_event e.BTN_SELECT 0) eq_refl))).
    + vm_compute. reflexivity.
    + apply (bool_decide_unpack _). vm_compute. exact I.
  - apply (proj2 (proj2 (C1_button_remap initial (key_event 0x13f 1) eq_refl))).
    + vm_compute. reflexivity.
    + apply (bool_decide_unpack _). vm_compute. exact I.
Defined.

(** ** The binary-report transport *)

Section BinaryTransport.

Lemma on_hidraw_cases (st : Engine) (data : list byte) :
  (parse_report6 data = Ret None /\ on_hidraw st (Some data) = Ret (st, [])) \/
  (exists v, decodes_to data v /\
     on_hidraw st (Some data) =
     if bool_decide (v <> last_r2 st)
     then Ret (set_last_r2 st v, [Write e.EV_ABS e.ABS_RZ v; Syn])
     else Ret (st, [])).
Proof.
  destruct (parse_report6_total data) as [Hnone|(raw & Hraw)].
  - left. split; [exact Hnone|]. unfold on_hidraw. rewrite Hnone. reflexivity.
  - right. exists (scaled (clamp_delta raw)). split.
    + exists raw. split; [exact Hraw | apply centered_u16_to_trigger_scaled].
    + unfold on_hidraw. rewrite Hraw. cbn [bind].
      rewrite centered_u16_to_trigger_scaled. reflexivity.
Qed.

Lemma parse_report6_wrong_type (data : list byte) (b : byte) :
  head data = Some b -> b <> x06 -> parse_report6 data = Ret None.
Proof.
  destruct data as [|b0 rest]; [discriminate|].
  intros Hhead Hne. injection Hhead as ->. cbn [parse_report6].
  rewrite bool_decide_eq_true_2; [reflexivity|].
  rewrite byte_val_x06. exact Hne.
Qed.

Lemma decodes_to_fun (data : list byte) (v w : Z) :
  decodes_to data v -> decodes_to data w -> v = w.
Proof.
  intros (raw & Hraw & Hv) (raw' & Hraw' & Hw). congruence.
Qed.

Lemma decodes_to_None (data : list byte) (v : Z) :
  parse_report6 data = Ret None -> ~ decodes_to data v.
Proof. intros Hnone (raw & Hraw & _). congruence. Qed.

(** A report that decodes to the value [last_r2] holds is served without
    a write. *)
Lemma on_hidraw_repeat (st : Engine) (data : list byte) (v : Z) :
  decodes_to data v -> last_r2 st = v -> on_hidraw st (Some data) = Ret (st, []).
Proof.
  intros (raw & Hraw & Hv) Hlast. unfold on_hidraw.
  rewrite Hraw. cbn [bind]. rewrite Hv. cbn [bind].
  rewrite bool_decide_eq_false_2; [reflexivity|].
  intros Hne. apply Hne. symmetry. exact Hlast.
Qed.

Lemma writes_r2_frame_nil : ~ writes_r2_frame [].
Proof.
  intros (v & before & after & Heq).
  destruct before; discriminate Heq.
Qed.

End BinaryTransport.

(** C4. Serving a report always succeeds, and its output holds a write to
    the right-trigger channel directly followed by a frame commit exactly
    when the report decodes to a value other than the last one emitted;
    then the output is that write and that commit and nothing else, and
    the value becomes the last one emitted: [last_r2] of the new state is
    that value, every other field of the state is as before, and the same
    report served again writes nothing.  In every other case — a leading
    byte other than the declared type among them, or a decoded value equal
    to the last one emitted — nothing is written, nothing is committed and
    the state is untouched. *)
Theorem C4_on_hidraw (st : Engine) (data : list byte) :
  exists st' ops,
    on_hidraw st (Some data) = Ret (st', ops) /\
    (writes_r2_frame ops <-> exists v, decodes_to data v /\ v <> last_r2 st) /\
    (forall v, decodes_to data v -> v <> last_r2 st ->
       ops = [Write e.EV_ABS e.ABS_RZ v; Syn] /\ st' = set_last_r2 st v /\
       last_r2 st' = v /\ last_l2 st' = last_l2 st /\
       last_stick st' = last_stick st /\
       hat_x st' = hat_x st /\ hat_y st' = hat_y st /\
       last_dpad st' = last_dpad st /\
       on_hidraw st' (Some data) = Ret (st', [])) /\
    (~ (exists v, decodes_to data v /\ v <> last_r2 st) -> ops = [] /\ st' = st) /\
    (forall b, head data = Some b -> b <> x06 -> ops = [] /\ st' = st) /\
    (decodes_to data (last_r2 st) -> ops = [] /\ st' = st).
Proof.
  destruct (on_hidraw_cases st data) as [[Hnone Hrun]|(v & Hdec & Hrun)].
  - exists st, []. split; [exact Hrun|].
    assert (Hno : ~ exists v, decodes_to data v /\ v <> last_r2 st).
    { intros (v & Hdec & _). exact (decodes_to_None _ _ Hnone Hdec). }
    refine (conj _ (conj _ (conj _ (conj _ _)))); auto.
    + split; [intros H; destruct (writes_r2_frame_nil H) | intros H; destruct (Hno H)].
    + intros v Hdec _. destruct (decodes_to_None _ _ Hnone Hdec).
  - destruct (decide (v = last_r2 st)) as [Heq|Hne].
    + rewrite bool_decide_eq_false_2 in Hrun by (intros H; apply H; exact Heq).
      exists st, []. split; [exact Hrun|].
      assert (Hno : ~ exists w, decodes_to data w /\ w <> last_r2 st).
      { intros (w & Hw & Hwne). apply Hwne.
        rewrite <- Heq. exact (decodes_to_fun _ _ _ Hw Hdec). }
      refine (conj _ (conj _ (conj _ (conj _ _)))); auto.
      * split; [intros H; destruct (writes_r2_frame_nil H) | intros H; destruct (Hno H)].
      * intros w Hw Hwne. destruct Hno. eauto.
    + rewrite bool_decide_eq_true_2 in Hrun by exact Hne.
      exists (set_last_r2 st v), [Write e.EV_ABS e.ABS_RZ v; Syn].
      split; [exact Hrun|].
      refine (conj _ (conj _ (conj _ (conj _ _)))).
      * split; [intros _; eauto|].
        intros _. exists v, [], []. reflexivity.
      * intros w Hw _. rewrite (decodes_to_fun _ _ _ Hw Hdec).
        refine (conj eq_refl (conj eq_refl (conj eq_refl (conj eq_refl
                 (conj eq_refl (conj eq_refl (conj eq_refl (conj eq_refl _)))))))).
        apply (on_hidraw_repeat _ _ v Hdec). reflexivity.
      * intros Hno. destruct Hno. eauto.
      * intros b Hhead Hb.
        destruct (decodes_to_None data v (parse_report6_wrong_type _ _ Hhead Hb) Hdec).
      * intros Hlast. destruct Hne. exact (decodes_to_fun _ _ _ Hdec Hlast).
Qed.

(** A report of type 6 with the trigger fully pressed, served from rest:
    1023 is written and becomes [last_r2], and the report served again
    writes nothing; and a report of another type. *)
Lemma C4_on_hidraw_witness :
  (exists st' ops,
     on_hidraw initial
       (Some [x06; x00; x00; x00; x00; x00; x00; x00; x00; xff; xff; x00; x00; x00])
     = Ret (st', ops) /\
     ops = [Write e.EV_ABS e.ABS_RZ 1023; Syn] /\ st' = set_last_r2 initial 1023 /\
     last_r2 st' = 1023 /\ last_l2 st' = last_l2 initial /\
     last_stick st' = last_stick initial /\
     hat_x st' = hat_x initial /\ hat_y st' = hat_y initial /\
     last_dpad st' = last_dpad initial /\
     on_hidraw st'
       (Some [x06; x00; x00; x00; x00; x00; x00; x00; x00; xff; xff; x00; x00; x00])
     = Ret (st', [])) /\
  (exists st' ops,
     on_hidraw initial
       (Some [x01; x00; x00; x00; x00; x00; x00; x00; x00; xff; xff; x00; x00; x00])
     = Ret (st', ops) /\ ops = [] /\ st' = initial).
Proof.
  split.
  - destruct (C4_on_hidraw initial
      [x06; x00; x00; x00; x00; x00; x00; x00; x00; xff; xff; x00; x00; x00])
      as (st' & ops & Hrun & _ & Hnew & _).
    exists st', ops. split; [exact Hrun|].
    apply Hnew.
    + exists 0xFFFF. split; [reflexivity|].
      rewrite centered_u16_to_trigger_scaled. reflexivity.
    + discriminate.
  - destruct (C4_on_hidraw initial
      [x01; x00; x00; x00; x00; x00; x00; x00; x00; xff; xff; x00; x00; x00])
      as (st' & ops & Hrun & _ & _ & _ & Htype & _).
    exists st', ops. split; [exact Hrun|].
    apply (Htype x01); [reflexivity | discriminate].
Defined.

(** ** The evdev transport and the whole loop *)

Section Loop.

Lemma post_deadzone_cases (axis raw : Z) :
  post_deadzone axis raw = 0 \/ post_deadzone axis raw = raw.
Proof. unfold post_deadzone. case_bool_decide; auto. Qed.

Lemma forward_from_event (st : Engine) (ev : InputEvent) (axis : Z) :
  ev_type ev = e.EV_ABS -> axis ∈ stick_outputs -> ev_code ev ∈ stick_inputs ->
  Forall (op_from_event ev)
    (forward axis (apply_stick_filter axis (ev_value ev) (last_stick st)).1).
Proof.
  intros Hty Hout Hin.
  destruct (apply_stick_filter axis (ev_value ev) (last_stick st)).1 as [v|] eqn:Hres;
    [|constructor].
  apply apply_stick_filter_accepted in Hres as [-> _].
  apply Forall_singleton. right.
  pose proof (post_deadzone_cases axis (ev_value ev)). tauto.
Qed.

(** One event never raises in a state whose [last_dpad] is complete, keeps
    it complete, and only writes. *)
Lemma on_event_ops (st : Engine) (ev : InputEvent) :
  dpad_wf st ->
  exists st' ops,
    on_event st ev = Ret (st', ops) /\ dpad_wf st' /\ Forall (op_from_event ev) ops.
Proof.
  intros Hwf.
  destruct (decide (ev_type ev = e.EV_KEY)) as [Hkey|Hnkey].
  { rewrite (on_event_key st ev Hkey). eexists _, _. split; [reflexivity|].
    split; [exact Hwf|]. cbv zeta.
    case_bool_decide; [apply Forall_singleton; left; reflexivity | constructor]. }
  destruct (decide (ev_type ev = e.EV_ABS)) as [Habs|Hnabs].
  2:{ exists st, []. unfold on_event.
      rewrite bool_decide_eq_false_2 by exact Hnkey.
      rewrite bool_decide_eq_false_2 by exact Hnabs.
      split; [reflexivity|]. split; [exact Hwf | constructor]. }
  destruct (decide (ev_code ev = e.ABS_HAT0X \/ ev_code ev = e.ABS_HAT0Y)) as [Hhat|Hnhat].
  { pose proof (on_event_hat st ev Hwf (conj Habs Hhat)) as Hrun. cbv zeta in Hrun.
    rewrite Hrun. eexists _, _. split; [reflexivity|].
    split; [apply store_all_dpad_wf|].
    apply Forall_fmap, Forall_forall. intros [b s] _. left. reflexivity. }
  unfold on_event.
  rewrite bool_decide_eq_false_2 by exact Hnkey.
  rewrite bool_decide_eq_true_2 by exact Habs.
  case_bool_decide as Hleft.
  { pose proof (forward_from_event st ev (ev_code ev) Habs) as Hfw.
    destruct (apply_stick_filter (ev_code ev) (ev_value ev) (last_stick st)) as [f l].
    eexists _, _. split; [reflexivity|]. split; [exact Hwf|].
    apply Hfw; unfold stick_outputs, stick_inputs;
      rewrite !elem_of_cons in *; tauto. }
  case_bool_decide as Hl2.
  { case_bool_decide.
    - eexists _, _. split; [reflexivity|]. split; [exact Hwf|].
      apply Forall_singleton. right. tauto.
    - eexists _, _. split; [reflexivity|]. split; [exact Hwf | constructor]. }
  case_bool_decide as Hrx.
  { pose proof (forward_from_event st ev e.ABS_RX Habs) as Hfw.
    destruct (apply_stick_filter e.ABS_RX (ev_value ev) (last_stick st)) as [f l].
    eexists _, _. split; [reflexivity|]. split; [exact Hwf|].
    apply Hfw; unfold stick_outputs, stick_inputs;
      rewrite !elem_of_cons in *; tauto. }
  case_bool_decide as Hry.
  { pose proof (forward_from_event st ev e.ABS_RY Habs) as Hfw.
    destruct (apply_stick_filter e.ABS_RY (ev_value ev) (last_stick st)) as [f l].
    eexists _, _. split; [reflexivity|]. split; [exact Hwf|].
    apply Hfw; unfold stick_outputs, stick_inputs;
      rewrite !elem_of_cons in *; tauto. }
  case_bool_decide as Hnoisy.
  { exists st, []. split; [reflexivity|]. split; [exact Hwf | constructor]. }
  rewrite bool_decide_eq_false_2 by tauto.
  rewrite bool_decide_eq_false_2 by tauto.
  exists st, []. split; [reflexivity|]. split; [exact Hwf | constructor].
Qed.

Lemma for_each_event_ops (batch : list InputEvent) :
  forall st, dpad_wf st ->
  exists st' ops,
    for_each_event st batch = Ret (st', ops) /\ dpad_wf st' /\
    Forall (fun op => exists ev, ev ∈ batch /\ op_from_event ev op) ops.
Proof.
  induction batch as [|ev rest IH]; intros st Hwf.
  - exists st, []. split; [reflexivity|]. split; [exact Hwf | constructor].
  - destruct (on_event_ops st ev Hwf) as (st1 & ops1 & Hrun1 & Hwf1 & Hops1).
    destruct (IH st1 Hwf1) as (st2 & ops2 & Hrun2 & Hwf2 & Hops2).
    exists st2, (ops1 ++ ops2). cbn [for_each_event].
    rewrite Hrun1. cbn [bind]. rewrite Hrun2. cbn [bind].
    split; [reflexivity|]. split; [exact Hwf2|].
    apply Forall_app. split.
    + eapply Forall_impl; [exact Hops1|]. intros op Hop. exists ev. split; [left | exact Hop].
    + eapply Forall_impl; [exact Hops2|]. intros op (ev' & Hin & Hop).
      exists ev'. split; [right; exact Hin | exact Hop].
Qed.

Lemma op_from_event_not_syn (ev : InputEvent) (op : SinkOp) :
  op_from_event ev op -> is_syn op = false.
Proof. destruct op; [reflexivity | intros []]. Qed.

End Loop.

(** C9. One batch of the event-stream transport, served in a state whose
    [last_dpad] is complete (every state [main] reaches is): the writes
    of the batch's events come first, whatever their number, and one
    frame commit follows them; it is the only commit. *)
Theorem C9_on_evdev (st : Engine) (batch : list InputEvent) :
  dpad_wf st ->
  exists st' writes,
    for_each_event st batch = Ret (st', writes) /\
    on_evdev st (Some batch) = Ret (st', writes ++ [Syn]) /\
    Forall (fun op => is_syn op = false) writes /\
    length (filter (fun op => is_syn op = true) (writes ++ [Syn])) = 1%nat /\
    dpad_wf st'.
Proof.
  intros Hwf.
  destruct (for_each_event_ops batch st Hwf) as (st' & writes & Hrun & Hwf' & Hops).
  assert (Hnosyn : Forall (fun op => is_syn op = false) writes).
  { eapply Forall_impl; [exact Hops|].
    intros op (ev & _ & Hop). exact (op_from_event_not_syn _ _ Hop). }
  exists st', writes. split; [exact Hrun|].
  split; [cbn [on_evdev]; rewrite Hrun; reflexivity|].
  split; [exact Hnosyn|]. split; [|exact Hwf'].
  rewrite filter_app, length_app.
  replace (filter (fun op => is_syn op = true) writes) with (@nil SinkOp); [reflexivity|].
  symmetry. clear -Hnosyn. induction Hnosyn as [|op l Hop _ IH]; [reflexivity|].
  rewrite filter_cons, decide_False by congruence. exact IH.
Qed.

(** From rest: a mapped button, a stick reading inside the deadzone (a
    first reading, accepted as 0) and a noisy-axis event. *)
Lemma C9_on_evdev_witness :
  exists st',
    on_evdev initial
      (Some [ key_event e.BTN_SOUTH 1;
              {| ev_type := e.EV_ABS; ev_code := e.ABS_X; ev_value := 120 |};
              {| ev_type := e.EV_ABS; ev_code := e.ABS_RY; ev_value := 77 |} ])
    = Ret (st', [Write e.EV_KEY e.BTN_SOUTH 1; Write e.EV_ABS e.ABS_X 0; Syn]).
Proof.
  destruct (C9_on_evdev initial
      [ key_event e.BTN_SOUTH 1;
        {| ev_type := e.EV_ABS; ev_code := e.ABS_X; ev_value := 120 |};
        {| ev_type := e.EV_ABS; ev_code := e.ABS_RY; ev_value := 77 |} ]
      initial_dpad_wf) as (st' & writes & Hrun & Hserve & _).
  exists st'. rewrite Hserve.
  vm_compute in Hrun. injection Hrun as _ <-. reflexivity.
Defined.

(** ** Output ranges *)

Section OutputRanges.

Lemma serve_ops (st : Engine) (r : Ready) :
  dpad_wf st ->
  exists st' ops,
    serve st r = Ret (st', ops) /\ dpad_wf st' /\ Forall (op_from_key r) ops.
Proof.
  intros Hwf. destruct r as [[data|]|[batch|]]; cbn [serve].
  - destruct (on_hidraw_cases st data) as [[_ Hrun]|(v & Hdec & Hrun)].
    + exists st, []. split; [exact Hrun|]. split; [exact Hwf | constructor].
    + rewrite Hrun. case_bool_decide.
      * eexists _, _. split; [reflexivity|]. split; [exact Hwf|].
        apply Forall_cons. split; [right; eauto|].
        apply Forall_singleton. left. reflexivity.
      * exists st, []. split; [reflexivity|]. split; [exact Hwf | constructor].
  - exists st, []. split; [reflexivity|]. split; [exact Hwf | constructor].
  - destruct (for_each_event_ops batch st Hwf) as (st' & ops & Hrun & Hwf' & Hops).
    exists st', (ops ++ [Syn]). cbn [on_evdev]. rewrite Hrun.
    split; [reflexivity|]. split; [exact Hwf'|].
    apply Forall_app. split.
    + eapply Forall_impl; [exact Hops|]. intros op Hop. right. exact Hop.
    + apply Forall_singleton. left. reflexivity.
  - exists st, []. split; [reflexivity|]. split; [exact Hwf | constructor].
Qed.

(** The loop never raises from a state whose [last_dpad] is complete. *)
Lemma main_loop_ops (keys : list Ready) :
  forall st, dpad_wf st ->
  exists st' ops,
    main_loop st keys = Ret (st', ops) /\ dpad_wf st' /\
    Forall (fun op => exists r, r ∈ keys /\ op_from_key r op) ops.
Proof.
  induction keys as [|r rest IH]; intros st Hwf.
  - exists st, []. split; [reflexivity|]. split; [exact Hwf | constructor].
  - destruct (serve_ops st r Hwf) as (st1 & ops1 & Hrun1 & Hwf1 & Hops1).
    destruct (IH st1 Hwf1) as (st2 & ops2 & Hrun2 & Hwf2 & Hops2).
    exists st2, (ops1 ++ ops2). cbn [main_loop].
    rewrite Hrun1. cbn [bind]. rewrite Hrun2. cbn [bind].
    split; [reflexivity|]. split; [exact Hwf2|].
    apply Forall_app. split.
    + eapply Forall_impl; [exact Hops1|]. intros op Hop. exists r. split; [left | exact Hop].
    + eapply Forall_impl; [exact Hops2|]. intros op (r' & Hin & Hop).
      exists r'. split; [right; exact Hin | exact Hop].
Qed.

Lemma decodes_to_range (data : list byte) (v : Z) :
  decodes_to data v -> 0 <= v <= 1023.
Proof.
  intros (raw & _ & Hv). rewrite centered_u16_to_trigger_scaled in Hv.
  injection Hv as <-. apply scaled_range, clamp_delta_range.
Qed.

Lemma op_from_key_not_hat (r : Ready) (op : SinkOp) :
  op_from_key r op -> ~ is_hat_write op.
Proof.
  destruct r as [[data|]|[batch|]]; cbn [op_from_key]; try tauto.
  - intros [->|(v & -> & _)]; [tauto|].
    cbn [is_hat_write]. code_cases. intros [_ [H|[H|[]]]]; discriminate H.
  - intros [->|(ev & _ & Hop)]; [tauto|].
    destruct op as [t c v|]; [|tauto]. cbn [is_hat_write op_from_event] in *.
    code_cases.
    intros [Ht Hc].
    destruct Hop as [Hk|(_ & _ & [(Hs & _)|(Hz & _)])].
    + rewrite Hk in Ht. discriminate Ht.
    + destruct Hc as [->|[->|[]]], Hs as [H|[H|[H|[H|[]]]]]; discriminate H.
    + destruct Hc as [->|[->|[]]]; discriminate Hz.
Qed.

Lemma op_from_key_r2 (r : Ready) (op : SinkOp) :
  op_from_key r op -> r2_in_range op.
Proof.
  destruct r as [[data|]|[batch|]]; cbn [op_from_key]; try tauto.
  - intros [->|(v & -> & Hdec)]; [exact I|].
    intros _ _. exact (decodes_to_range _ _ Hdec).
  - intros [->|(ev & _ & Hop)]; [exact I|].
    destruct op as [t c v|]; [|exact I]. cbn [r2_in_range op_from_event] in *.
    intros Ht Hc. code_cases.
    destruct Hop as [Hk|(_ & _ & [(Hs & _)|(Hz & _)])].
    + rewrite Hk in Ht. discriminate Ht.
    + rewrite Hc in Hs. destruct Hs as [H|[H|[H|[H|[]]]]]; discriminate H.
    + rewrite Hc in Hz. discriminate Hz.
Qed.

Lemma op_from_key_range (r : Ready) (op : SinkOp) :
  key_in_source_range r -> op_from_key r op -> in_declared_range op.
Proof.
  destruct r as [[data|]|[batch|]]; cbn [op_from_key key_in_source_range]; try tauto.
  - intros _ [->|(v & -> & Hdec)]; [exact I|].
    pose proof (decodes_to_range _ _ Hdec) as Hv.
    cbn [in_declared_range]. code_cases. intros _.
    refine (conj _ (conj _ _)).
    + intros [H|[H|[H|[H|[]]]]]; discriminate H.
    + intros _. exact Hv.
    + intros [H|[H|[]]]; discriminate H.
  - intros Hsrc [->|(ev & Hin & Hop)]; [exact I|].
    rewrite Forall_forall in Hsrc. specialize (Hsrc ev Hin).
    destruct op as [t c v|]; [|exact I].
    cbn [in_declared_range op_from_event] in *. unfold in_source_range in Hsrc.
    code_cases. intros Ht.
    destruct Hop as [Hk|(_ & Hty & [(Hs & Hcode & Hv)|(Hz & Hcode & Hv)])].
    { rewrite Hk in Ht. discriminate Ht. }
    + destruct (Hsrc Hty) as [Hstick _]. specialize (Hstick Hcode).
      refine (conj _ (conj _ _)).
      * intros _. lia.
      * intros [->|[->|[]]]; destruct Hs as [H|[H|[H|[H|[]]]]]; discriminate H.
      * intros [->|[->|[]]]; destruct Hs as [H|[H|[H|[H|[]]]]]; discriminate H.
    + destruct (Hsrc Hty) as [_ Hl2]. specialize (Hl2 Hcode). subst c v.
      refine (conj _ (conj _ _)).
      * intros [H|[H|[H|[H|[]]]]]; discriminate H.
      * intros _. exact Hl2.
      * intros [H|[H|[]]]; discriminate H.
Qed.

Lemma make_uinput_in_range : Forall in_declared_range make_uinput.
Proof.
  unfold make_uinput.
  repeat (apply Forall_cons; split); try exact I; try apply Forall_nil_2.
  all: cbn [in_declared_range]; intros _; repeat split; lia.
Qed.

End OutputRanges.

(** C7, counterexample. Nothing clamps what the event stream carries: a
    left-trigger reading of 5000 and a left-stick reading of 40000 are
    written as they come, outside [0, 1023] and outside the signed 16-bit
    range. *)
Lemma C7_out_of_range_forwarded :
  exists st,
    main [ Evdev (Some [ abs_event e.ABS_RX 5000; abs_event e.ABS_X 40000 ]) ] =
      Ret (st, make_uinput ++
               [ Write e.EV_ABS e.ABS_Z 5000; Write e.EV_ABS e.ABS_X 40000; Syn ]) /\
    ~ in_declared_range (Write e.EV_ABS e.ABS_Z 5000) /\
    ~ in_declared_range (Write e.EV_ABS e.ABS_X 40000).
Proof.
  eexists. split; [vm_compute; reflexivity|]. split.
  - intros H. destruct (H eq_refl) as (_ & Htrig & _).
    assert (Hin : e.ABS_Z ∈ trigger_outputs) by left. specialize (Htrig Hin). lia.
  - intros H. destruct (H eq_refl) as (Hstick & _).
    assert (Hin : e.ABS_X ∈ stick_outputs) by left. specialize (Hstick Hin). lia.
Qed.

(** C7, as the code has it. [main] never raises, whatever the two
    transports deliver.  Every right-trigger value it writes lies in
    [0, 1023].  The loop writes no hat axis at all; the only hat-axis
    writes are the two zeros [make_uinput] issues at start-up.  When the
    event stream keeps to its source ranges — stick readings
    ([ABS_X], [ABS_Y], [ABS_Z], [ABS_RZ]) in -32768..32767 and
    left-trigger readings ([ABS_RX]) in 0..1023 — every analog value
    written lies in the declared range of its channel. *)
Theorem C7_output_ranges (keys : list Ready) :
  exists st ops,
    main keys = Ret (st, make_uinput ++ ops) /\
    Forall r2_in_range (make_uinput ++ ops) /\
    Forall (fun op => ~ is_hat_write op) ops /\
    Forall (fun op => is_hat_write op -> exists c, op = Write e.EV_ABS c 0) make_uinput /\
    (Forall key_in_source_range keys -> Forall in_declared_range (make_uinput ++ ops)).
Proof.
  destruct (main_loop_ops keys initial initial_dpad_wf) as (st & ops & Hrun & _ & Hops).
  exists st, ops. unfold main. rewrite Hrun. cbn [bind].
  split; [reflexivity|].
  refine (conj _ (conj _ (conj _ _))).
  - apply Forall_app. split.
    + unfold make_uinput.
      repeat (apply Forall_cons; split); try exact I; try apply Forall_nil_2.
      all: cbn [r2_in_range]; intros _ _; lia.
    + eapply Forall_impl; [exact Hops|].
      intros op (r & _ & Hop). exact (op_from_key_r2 _ _ Hop).
  - eapply Forall_impl; [exact Hops|].
    intros op (r & _ & Hop). exact (op_from_key_not_hat _ _ Hop).
  - unfold make_uinput.
    repeat (apply Forall_cons; split); try apply Forall_nil_2.
    all: cbn [is_hat_write]; intros Hhat; try (destruct Hhat; fail); eauto.
  - intros Hsrc. apply Forall_app. split; [apply make_uinput_in_range|].
    rewrite Forall_forall in Hsrc.
    eapply Forall_impl; [exact Hops|].
    intros op (r & Hin & Hop). exact (op_from_key_range r op (Hsrc r Hin) Hop).
Qed.

(** Half-pressed left trigger, a left-stick reading, then a report with
    the right trigger fully pressed. *)
Lemma C7_output_ranges_witness :
  exists st ops,
    main [ Evdev (Some [ abs_event e.ABS_RX 512; abs_event e.ABS_X 20000 ]);
           Hidraw (Some [x06; x00; x00; x00; x00; x00; x00; x00; x00; xff; xff; x00; x00; x00]) ]
      = Ret (st, make_uinput ++ ops) /\
    Forall in_declared_range (make_uinput ++ ops).
Proof.
  destruct (C7_output_ranges
    [ Evdev (Some [ abs_event e.ABS_RX 512; abs_event e.ABS_X 20000 ]);
      Hidraw (Some [x06; x00; x00; x00; x00; x00; x00; x00; x00; xff; xff; x00; x00; x00]) ])
    as (st & ops & Hrun & _ & _ & _ & Hrange).
  exists st, ops. split; [exact Hrun|]. apply Hrange.
  apply Forall_cons. split; [|apply Forall_singleton; exact I].
  cbn [key_in_source_range].
  apply Forall_cons. split; [|apply Forall_singleton].
  - intros _. cbn [abs_event ev_code ev_value]. split; [|intros _; lia].
    intros Hin. exfalso. code_cases.
    destruct Hin as [H|[H|[H|[H|[]]]]]; discriminate H.
  - intros _. cbn [abs_event ev_code ev_value]. split; [intros _; lia|].
    intros H. discriminate H.
Defined.

(** * Further properties of the program *)

(** ** Report decoder *)

Section DecoderRoundTrip.

Lemma byte_val_byte_of (z : Z) : 0 <= z < 256 -> byte_val (byte_of z) = z.
Proof.
  intros Hz. unfold byte_val, byte_of.
  destruct (Byte.of_N (Z.to_N z)) as [b|] eqn:Hb.
  - simpl. apply Byte.to_of_N in Hb. rewrite Hb. lia.
  - apply Byte.of_N_None_iff in Hb. lia.
Qed.

Lemma parse_report6_bytes (report : list byte) (lo hi : byte) :
  head report = Some x06 -> (14 <= length report)%nat ->
  report !! 9%nat = Some lo -> report !! 10%nat = Some hi ->
  parse_report6 report = Ret (Some (byte_val lo + 256 * byte_val hi)).
Proof.
  intros Hhead Hlen Hlo Hhi.
  destruct report as [|b0 rest]; [discriminate|].
  injection Hhead as ->. cbn [parse_report6].
  rewrite bool_decide_eq_false_2 by (intros H; apply H; reflexivity).
  rewrite bool_decide_eq_false_2 by lia.
  unfold unpack_from_le_H. rewrite Hlo, Hhi. cbn [bind].
  rewrite le_H_value. reflexivity.
Qed.

End DecoderRoundTrip.

(** X1. Decoding inverts encoding: a report of type 6 that carries a
    16-bit reading, low byte first, at offset 9 (eight bytes before it,
    at least three after it) decodes to that reading. *)
Theorem parse_report6_pack (x : Z) (pre post : list byte) :
  0 <= x <= 0xFFFF -> length pre = 8%nat -> (3 <= length post)%nat ->
  parse_report6 (x06 :: pre ++ pack_le_H x ++ post) = Ret (Some x).
Proof.
  intros Hx Hpre Hpost.
  destruct pre as [|p0 [|p1 [|p2 [|p3 [|p4 [|p5 [|p6 [|p7 [|p8 pre]]]]]]]]];
    try discriminate Hpre.
  rewrite (parse_report6_bytes _ (byte_of (x mod 256)) (byte_of (x / 256 mod 256))).
  - rewrite !byte_val_byte_of by (apply Z.mod_pos_bound; lia).
    rewrite (Z.mod_small (x / 256))
      by (split; [apply Z.div_pos | apply Z.div_lt_upper_bound]; lia).
    pose proof (Z.div_mod x 256 ltac:(lia)). do 2 f_equal. lia.
  - reflexivity.
  - simpl. lia.
  - reflexivity.
  - reflexivity.
Qed.

Lemma parse_report6_pack_witness :
  parse_report6
    (x06 :: [x01; x02; x03; x04; x05; x06; x07; x08] ++ pack_le_H 0xBEEF ++ [x00; x00; x00])
  = Ret (Some 0xBEEF).
Proof.
  apply parse_report6_pack; [lia | reflexivity | simpl; lia].
Defined.

(** X2. Only the length test and three bytes count: two reports of at
    least 14 bytes that agree on bytes 0, 9 and 10 decode alike, whatever
    their other bytes and their lengths. *)
Theorem parse_report6_local (r1 r2 : list byte) :
  (14 <= length r1)%nat -> (14 <= length r2)%nat ->
  r1 !! 0%nat = r2 !! 0%nat -> r1 !! 9%nat = r2 !! 9%nat -> r1 !! 10%nat = r2 !! 10%nat ->
  parse_report6 r1 = parse_report6 r2.
Proof.
  intros H1 H2 E0 E9 E10.
  destruct r1 as [|a r1]; [simpl in H1; lia|].
  destruct r2 as [|b r2]; [simpl in H2; lia|].
  injection E0 as ->. cbn [parse_report6].
  case_bool_decide; [reflexivity|].
  rewrite !bool_decide_eq_false_2 by lia.
  unfold unpack_from_le_H. rewrite E9, E10. reflexivity.
Qed.

Lemma parse_report6_local_witness :
  parse_report6 [x06; x00; x00; x00; x00; x00; x00; x00; x00; x34; x12; x00; x00; x00] =
  parse_report6 [x06; xff; xff; xff; xff; xff; xff; xff; xff; x34; x12; xff; xff; xff; xff; xff].
Proof.
  apply parse_report6_local; [simpl; lia | simpl; lia | reflexivity | reflexivity | reflexivity].
Defined.

(** ** Trigger scaling *)

Section TriggerLevels.

Lemma scaled_step (d : Z) : scaled (d + 1) = scaled d \/ scaled (d + 1) = scaled d + 1.
Proof.
  unfold scaled.
  pose proof (Z.div_mod (2 * (d + 1) * 1023 + 0x7FFF) (2 * 0x7FFF) ltac:(lia)).
  pose proof (Z.mod_pos_bound (2 * (d + 1) * 1023 + 0x7FFF) (2 * 0x7FFF) ltac:(lia)).
  pose proof (Z.div_mod (2 * d * 1023 + 0x7FFF) (2 * 0x7FFF) ltac:(lia)).
  pose proof (Z.mod_pos_bound (2 * d * 1023 + 0x7FFF) (2 * 0x7FFF) ltac:(lia)).
  lia.
Qed.

Lemma scaled_onto (k : Z) :
  0 <= k <= 1023 -> 0 <= 0x7FFF * k / 1023 <= 0x7FFF /\ scaled (0x7FFF * k / 1023) = k.
Proof.
  intros Hk. unfold scaled.
  pose proof (Z.div_mod (0x7FFF * k) 1023 ltac:(lia)).
  pose proof (Z.mod_pos_bound (0x7FFF * k) 1023 ltac:(lia)).
  set (d := 0x7FFF * k / 1023) in *.
  split; [lia|].
  symmetry. apply (Z.div_unique _ _ k (2 * d * 1023 + 0x7FFF - 2 * 0x7FFF * k)); lia.
Qed.

End TriggerLevels.

(** X3. The trigger scale has no jumps: raising the raw reading by one
    leaves the converted value where it is or raises it by exactly one. *)
Theorem centered_u16_to_trigger_step (v : Z) :
  exists a b,
    centered_u16_to_trigger v R2_MAX = Ret a /\
    centered_u16_to_trigger (v + 1) R2_MAX = Ret b /\
    (b = a \/ b = a + 1).
Proof.
  exists (scaled (clamp_delta v)), (scaled (clamp_delta (v + 1))).
  rewrite !centered_u16_to_trigger_scaled.
  refine (conj eq_refl (conj eq_refl _)).
  unfold clamp_delta.
  destruct (Z.lt_ge_cases v 0x8000) as [Hlow|Hmid].
  - left. f_equal. lia.
  - destruct (Z.lt_ge_cases v (0x8000 + 0x7FFF)) as [Hin|Hhigh].
    + replace (Z.min (Z.max (v + 1 - 0x8000) 0) 0x7FFF)
        with (Z.min (Z.max (v - 0x8000) 0) 0x7FFF + 1) by lia.
      apply scaled_step.
    + left. f_equal. lia.
Qed.

(** X4. Every level of the trigger scale is reached: each value of
    [0, 1023] is the conversion of some 16-bit reading at or above
    centre. *)
Theorem centered_u16_to_trigger_onto (k : Z) :
  0 <= k <= R2_MAX ->
  exists v, 0x8000 <= v <= 0xFFFF /\ centered_u16_to_trigger v R2_MAX = Ret k.
Proof.
  intros Hk. unfold R2_MAX in Hk.
  destruct (scaled_onto k Hk) as [Hd Hs].
  exists (0x8000 + 0x7FFF * k / 1023). split; [lia|].
  rewrite centered_u16_to_trigger_scaled. f_equal.
  rewrite <- Hs at 2. f_equal. unfold clamp_delta. lia.
Qed.

Lemma centered_u16_to_trigger_onto_witness :
  exists v, 0x8000 <= v <= 0xFFFF /\ centered_u16_to_trigger v R2_MAX = Ret 700.
Proof.
  apply centered_u16_to_trigger_onto. unfold R2_MAX. lia.
Defined.

(** ** Axis filter *)

Section AxisFilterFacts.

Lemma apply_stick_filter_other (axis other raw : Z) (last : gmap Z Z) :
  other <> axis ->
  (apply_stick_filter axis raw last).2 !! other = last !! other.
Proof.
  intros Hne. rewrite apply_stick_filter_cases.
  destruct (last !! axis); [case_bool_decide|]; cbn [snd];
    try reflexivity; apply lookup_insert_ne; congruence.
Qed.

(** An accepted value against the previous one. *)
Lemma apply_stick_filter_moves (axis raw v prev : Z) (last : gmap Z Z) :
  (apply_stick_filter axis raw last).1 = Some v -> last !! axis = Some prev ->
  v <> prev /\ (v <> 0 -> jitter axis <= Z.abs (v - prev)).
Proof.
  rewrite apply_stick_filter_cases. intros Hres Hprev. rewrite Hprev in Hres.
  case_bool_decide as Hsup; cbn [fst] in Hres; [discriminate|].
  injection Hres as Hv. rewrite Hv in Hsup.
  unfold is_jitter, is_rest_repeat in Hsup.
  pose proof (jitter_pos axis). split; [|intros Hnz]; lia.
Qed.

End AxisFilterFacts.

(** X5. The filter keeps the axes apart: a call for one axis leaves the
    entry of every other axis as it was, present or absent. *)
Theorem apply_stick_filter_frame (axis other raw : Z) (last : gmap Z Z) :
  other <> axis ->
  (apply_stick_filter axis raw last).2 !! other = last !! other.
Proof. apply apply_stick_filter_other. Qed.

Lemma apply_stick_filter_frame_witness :
  (apply_stick_filter e.ABS_X 9000 {[ e.ABS_Y := 7000 ]}).2 !! e.ABS_Y = Some 7000.
Proof.
  rewrite (apply_stick_filter_frame e.ABS_X e.ABS_Y 9000 {[ e.ABS_Y := 7000 ]}).
  - reflexivity.
  - discriminate.
Defined.

(** X6. What the filter lets through: an accepted value is zero or the raw
    value itself, a nonzero one lies at or beyond the deadzone, and it is
    never the previous accepted value again — a nonzero one lies at least
    the jitter threshold away from it. *)
Theorem apply_stick_filter_accepts (axis raw v : Z) (last : gmap Z Z) :
  (apply_stick_filter axis raw last).1 = Some v ->
  (v = 0 \/ (v = raw /\ deadzone axis <= Z.abs raw)) /\
  (forall prev, last !! axis = Some prev ->
     v <> prev /\ (v <> 0 -> jitter axis <= Z.abs (v - prev))).
Proof.
  intros Hres. split.
  - destruct (apply_stick_filter_accepted _ _ _ _ Hres) as [-> _].
    unfold post_deadzone. case_bool_decide; [left; reflexivity | right; lia].
  - intros prev Hprev. exact (apply_stick_filter_moves _ _ _ _ _ Hres Hprev).
Qed.

Lemma apply_stick_filter_accepts_witness :
  (5000 = 0 \/ (5000 = 5000 /\ deadzone e.ABS_X <= Z.abs 5000)) /\
  (forall prev, ({[ e.ABS_X := 4000 ]} : gmap Z Z) !! e.ABS_X = Some prev ->
     5000 <> prev /\ (5000 <> 0 -> jitter e.ABS_X <= Z.abs (5000 - prev))).
Proof.
  apply (apply_stick_filter_accepts e.ABS_X 5000 5000 {[ e.ABS_X := 4000 ]}).
  vm_compute. reflexivity.
Defined.

(** X7. The filter never lags by the jitter threshold or more: after
    every call the value stored for the axis is closer than the jitter
    threshold to the post-deadzone value of the reading just given. *)
Theorem apply_stick_filter_tracks (axis raw : Z) (last : gmap Z Z) :
  exists stored,
    (apply_stick_filter axis raw last).2 !! axis = Some stored /\
    Z.abs (stored - post_deadzone axis raw) < jitter axis.
Proof.
  pose proof (jitter_pos axis) as Hjs.
  rewrite apply_stick_filter_cases.
  destruct (last !! axis) as [prev|] eqn:Hprev.
  - case_bool_decide as Hsup; cbn [snd].
    + exists prev. split; [exact Hprev|].
      unfold is_jitter, is_rest_repeat in Hsup. lia.
    + exists (post_deadzone axis raw). rewrite lookup_insert_eq. split; [reflexivity | lia].
  - cbn [snd]. exists (post_deadzone axis raw).
    rewrite lookup_insert_eq. split; [reflexivity | lia].
Qed.

(** ** The event loop, step by step *)

Section EventSteps.

Lemma stick_route_outputs (code axis : Z) :
  stick_route code = Some axis -> axis ∈ stick_outputs /\ code ∈ stick_inputs.
Proof.
  unfold stick_route, stick_outputs, stick_inputs. rewrite !elem_of_cons.
  repeat case_bool_decide; intros Heq; try discriminate Heq;
    injection Heq as <-; subst; tauto.
Qed.

(** Every event takes one of the steps. *)
Lemma on_event_step (st : Engine) (ev : InputEvent) :
  (is_hat_event ev -> dpad_wf st) ->
  exists st' ops, on_event st ev = Ret (st', ops) /\ event_step st ev st' ops.
Proof.
  intros Hwf.
  destruct (decide (ev_type ev = e.EV_KEY)) as [Hkey|Hnkey].
  { rewrite (on_event_key st ev Hkey). eexists _, _. split; [reflexivity|].
    apply (step_key st ev Hkey). }
  destruct (decide (ev_type ev = e.EV_ABS)) as [Habs|Hnabs].
  2:{ exists st, []. unfold on_event.
      rewrite bool_decide_eq_false_2 by exact Hnkey.
      rewrite bool_decide_eq_false_2 by exact Hnabs.
      split; [reflexivity|]. apply step_ignored; [exact Hnkey | tauto]. }
  destruct (decide (ev_code ev = e.ABS_HAT0X \/ ev_code ev = e.ABS_HAT0Y)) as [Hhat|Hnhat].
  { pose proof (on_event_hat st ev (Hwf (conj Habs Hhat)) (conj Habs Hhat)) as Hrun.
    cbv zeta in Hrun.
    rewrite Hrun. eexists _, _. split; [reflexivity|].
    apply (step_hat st ev (conj Habs Hhat)). }
  unfold on_event.
  rewrite bool_decide_eq_false_2 by exact Hnkey.
  rewrite bool_decide_eq_true_2 by exact Habs.
  case_bool_decide as Hleft.
  { assert (Hroute : stick_route (ev_code ev) = Some (ev_code ev)).
    { unfold stick_route. rewrite !elem_of_cons, elem_of_nil in Hleft.
      destruct Hleft as [->|[->|[]]]; reflexivity. }
    pose proof (step_stick st ev (ev_code ev) Habs Hroute) as Hstep.
    destruct (apply_stick_filter (ev_code ev) (ev_value ev) (last_stick st)) as [f l].
    eexists _, _. split; [reflexivity | exact Hstep]. }
  assert (Hnx : ev_code ev <> e.ABS_X /\ ev_code ev <> e.ABS_Y).
  { rewrite !elem_of_cons, elem_of_nil in Hleft. tauto. }
  case_bool_decide as Hl2.
  { case_bool_decide as Hnew.
    - eexists _, _. split; [reflexivity|]. apply step_l2; assumption.
    - eexists _, _. split; [reflexivity|]. apply step_l2_same; try assumption;
        destruct (decide (ev_value ev = last_l2 st)); tauto. }
  case_bool_decide as Hrx.
  { assert (Hroute : stick_route (ev_code ev) = Some e.ABS_RX) by (rewrite Hrx; reflexivity).
    pose proof (step_stick st ev e.ABS_RX Habs Hroute) as Hstep.
    destruct (apply_stick_filter e.ABS_RX (ev_value ev) (last_stick st)) as [f l].
    eexists _, _. split; [reflexivity | exact Hstep]. }
  case_bool_decide as Hry.
  { assert (Hroute : stick_route (ev_code ev) = Some e.ABS_RY) by (rewrite Hry; reflexivity).
    pose proof (step_stick st ev e.ABS_RY Habs Hroute) as Hstep.
    destruct (apply_stick_filter e.ABS_RY (ev_value ev) (last_stick st)) as [f l].
    eexists _, _. split; [reflexivity | exact Hstep]. }
  assert (Hunhandled : ev_code ev ∉ handled_abs).
  { unfold handled_abs. rewrite !elem_of_cons, elem_of_nil. tauto. }
  case_bool_decide as Hnoisy.
  { exists st, []. split; [reflexivity|]. apply step_ignored; [exact Hnkey | auto]. }
  rewrite bool_decide_eq_false_2 by tauto.
  rewrite bool_decide_eq_false_2 by tauto.
  exists st, []. split; [reflexivity|]. apply step_ignored; [exact Hnkey | auto].
Qed.

Lemma event_step_wf (st st' : Engine) (ev : InputEvent) (ops : list SinkOp) :
  dpad_wf st -> event_step st ev st' ops -> dpad_wf st'.
Proof.
  intros Hwf Hstep. destruct Hstep; try exact Hwf.
  apply store_all_dpad_wf.
Qed.

End EventSteps.

(** A property of the state and of what has been sent so far that every
    step of the loop keeps holds after every run. *)
Section LoopInvariant.

Variable J : Engine -> list SinkOp -> Prop.

Hypothesis J_event : forall st tr ev st' ops,
  dpad_wf st -> J st tr -> event_step st ev st' ops -> J st' (tr ++ ops).

Hypothesis J_syn : forall st tr, J st tr -> J st (tr ++ [Syn]).

Hypothesis J_r2 : forall st tr v,
  J st tr -> 0 <= v <= 1023 -> v <> last_r2 st ->
  J (set_last_r2 st v) (tr ++ [Write e.EV_ABS e.ABS_RZ v; Syn]).

Lemma for_each_event_inv (batch : list InputEvent) :
  forall st tr, dpad_wf st -> J st tr ->
  exists st' ops,
    for_each_event st batch = Ret (st', ops) /\ dpad_wf st' /\ J st' (tr ++ ops).
Proof.
  induction batch as [|ev rest IH]; intros st tr Hwf HJ.
  - exists st, []. rewrite app_nil_r. auto.
  - destruct (on_event_step st ev (fun _ => Hwf)) as (st1 & ops1 & Hrun1 & Hstep).
    pose proof (event_step_wf _ _ _ _ Hwf Hstep) as Hwf1.
    pose proof (J_event _ _ _ _ _ Hwf HJ Hstep) as HJ1.
    destruct (IH st1 (tr ++ ops1) Hwf1 HJ1) as (st2 & ops2 & Hrun2 & Hwf2 & HJ2).
    exists st2, (ops1 ++ ops2). cbn [for_each_event].
    rewrite Hrun1. cbn [bind]. rewrite Hrun2. cbn [bind].
    rewrite app_assoc. auto.
Qed.

Lemma serve_inv (r : Ready) (st : Engine) (tr : list SinkOp) :
  dpad_wf st -> J st tr ->
  exists st' ops, serve st r = Ret (st', ops) /\ dpad_wf st' /\ J st' (tr ++ ops).
Proof.
  intros Hwf HJ. destruct r as [[data|]|[batch|]]; cbn [serve].
  - destruct (on_hidraw_cases st data) as [[_ Hrun]|(v & Hdec & Hrun)].
    + exists st, []. rewrite app_nil_r. auto.
    + rewrite Hrun. case_bool_decide as Hnew.
      * eexists _, _. split; [reflexivity|]. split; [exact Hwf|].
        apply J_r2; [exact HJ | exact (decodes_to_range _ _ Hdec) | exact Hnew].
      * exists st, []. rewrite app_nil_r. auto.
  - exists st, []. rewrite app_nil_r. auto.
  - destruct (for_each_event_inv batch st tr Hwf HJ) as (st' & ops & Hrun & Hwf' & HJ').
    exists st', (ops ++ [Syn]). cbn [on_evdev]. rewrite Hrun. cbn [bind].
    split; [reflexivity|]. split; [exact Hwf'|].
    rewrite app_assoc. apply J_syn, HJ'.
  - exists st, []. rewrite app_nil_r. auto.
Qed.

Lemma main_loop_inv (keys : list Ready) :
  forall st tr, dpad_wf st -> J st tr ->
  exists st' ops,
    main_loop st keys = Ret (st', ops) /\ dpad_wf st' /\ J st' (tr ++ ops).
Proof.
  induction keys as [|r rest IH]; intros st tr Hwf HJ.
  - exists st, []. rewrite app_nil_r. auto.
  - destruct (serve_inv r st tr Hwf HJ) as (st1 & ops1 & Hrun1 & Hwf1 & HJ1).
    destruct (IH st1 (tr ++ ops1) Hwf1 HJ1) as (st2 & ops2 & Hrun2 & Hwf2 & HJ2).
    exists st2, (ops1 ++ ops2). cbn [main_loop].
    rewrite Hrun1. cbn [bind]. rewrite Hrun2. cbn [bind].
    rewrite app_assoc. auto.
Qed.

End LoopInvariant.

(** ** Invariants of the reachable states *)

Section StateInvariants.

Lemma after_hat_last_stick (st : Engine) (ev : InputEvent) :
  last_stick (after_hat st ev) = last_stick st.
Proof. unfold after_hat. case_bool_decide; reflexivity. Qed.

Lemma after_hat_last_dpad (st : Engine) (ev : InputEvent) :
  last_dpad (after_hat st ev) = last_dpad st.
Proof. unfold after_hat. case_bool_decide; reflexivity. Qed.

Lemma after_hat_last_l2 (st : Engine) (ev : InputEvent) :
  last_l2 (after_hat st ev) = last_l2 st.
Proof. unfold after_hat. case_bool_decide; reflexivity. Qed.

Lemma after_hat_last_r2 (st : Engine) (ev : InputEvent) :
  last_r2 (after_hat st ev) = last_r2 st.
Proof. unfold after_hat. case_bool_decide; reflexivity. Qed.

Lemma post_deadzone_inv (axis raw : Z) :
  post_deadzone axis raw = 0 \/ deadzone axis <= Z.abs (post_deadzone axis raw).
Proof. unfold post_deadzone. case_bool_decide; [left; reflexivity | right; lia]. Qed.

Lemma apply_stick_filter_inv (axis raw : Z) (last : gmap Z Z) :
  axis ∈ stick_outputs ->
  (forall a v, last !! a = Some v -> a ∈ stick_outputs /\ (v = 0 \/ deadzone a <= Z.abs v)) ->
  forall a v, (apply_stick_filter axis raw last).2 !! a = Some v ->
    a ∈ stick_outputs /\ (v = 0 \/ deadzone a <= Z.abs v).
Proof.
  intros Haxis Hinv a v. rewrite apply_stick_filter_cases.
  assert (Hins : <[axis := post_deadzone axis raw]> last !! a = Some v ->
                 a ∈ stick_outputs /\ (v = 0 \/ deadzone a <= Z.abs v)).
  { destruct (decide (a = axis)) as [->|Hne].
    - rewrite lookup_insert_eq. intros Heq. injection Heq as <-.
      split; [exact Haxis | apply post_deadzone_inv].
    - rewrite lookup_insert_ne by congruence. apply Hinv. }
  destruct (last !! axis); [case_bool_decide|]; cbn [snd]; auto.
Qed.

Lemma event_step_stick_inv (st st' : Engine) (ev : InputEvent) (ops : list SinkOp) :
  stick_inv st -> event_step st ev st' ops -> stick_inv st'.
Proof.
  intros Hinv Hstep. destruct Hstep as [| axis _ Hroute | | | |]; try exact Hinv.
  - unfold stick_inv. cbn [last_stick set_last_stick].
    apply apply_stick_filter_inv; [|exact Hinv].
    exact (proj1 (stick_route_outputs _ _ Hroute)).
  - unfold stick_inv. cbn [last_stick set_last_dpad].
    rewrite after_hat_last_stick. exact Hinv.
Qed.

Lemma store_all_dom (items : list (Z * Z)) :
  forall (last : gmap Z Z) (btn : Z),
  is_Some (store_all items last !! btn) -> btn ∈ items.*1 \/ is_Some (last !! btn).
Proof.
  induction items as [|[b s] rest IH]; intros last btn Hsome; [right; exact Hsome|].
  change (store_all ((b, s) :: rest) last) with (store_all rest (<[b := s]> last)) in Hsome.
  rewrite fmap_cons, elem_of_cons. cbn [fst].
  destruct (IH _ _ Hsome) as [Hin|Hl]; [tauto|].
  apply lookup_insert_is_Some in Hl. destruct Hl as [->|[_ Hl]]; tauto.
Qed.

Lemma hat_step_sync (st : Engine) (hx hy : Z) (last : gmap Z Z) :
  (forall btn, is_Some (last !! btn) -> btn ∈ dpad_buttons) ->
  (forall btn state, (btn, state) ∈ dpad_items hx hy ->
     store_all (dpad_items hx hy) last !! btn = Some state) /\
  (forall btn, is_Some (store_all (dpad_items hx hy) last !! btn) -> btn ∈ dpad_buttons).
Proof.
  intros Hdom. split.
  - intros btn state Hin. apply store_all_lookup; [|exact Hin].
    rewrite dpad_items_keys. apply dpad_buttons_NoDup.
  - intros btn Hsome. apply store_all_dom in Hsome.
    rewrite dpad_items_keys in Hsome. destruct Hsome; auto.
Qed.

Lemma event_step_dpad_sync (st st' : Engine) (ev : InputEvent) (ops : list SinkOp) :
  dpad_sync st -> event_step st ev st' ops -> dpad_sync st'.
Proof.
  intros Hsync Hstep. destruct Hstep; try exact Hsync.
  unfold dpad_sync. cbn [hat_x hat_y last_dpad set_last_dpad].
  apply (hat_step_sync st). exact (proj2 Hsync).
Qed.

Lemma initial_stick_inv : stick_inv initial.
Proof. intros axis v Hlook. cbn [last_stick initial] in Hlook. rewrite lookup_empty in Hlook. discriminate. Qed.

Lemma initial_dpad_sync : dpad_sync initial.
Proof.
  split.
  - intros btn state Hin. cbn [hat_x hat_y initial] in Hin.
    unfold dpad_items in Hin. rewrite !elem_of_cons, elem_of_nil in Hin.
    destruct Hin as [H|[H|[H|[H|[]]]]]; injection H as -> ->; vm_compute; reflexivity.
  - intros btn [v Hv]. cbn [last_dpad initial dict_of foldl fst snd] in Hv.
    unfold dpad_buttons. rewrite !elem_of_cons.
    repeat (apply lookup_insert_Some in Hv; destruct Hv as [[<- _]|[_ Hv]]; [tauto|]).
    rewrite lookup_empty in Hv. discriminate.
Qed.

End StateInvariants.

(** X8. Whatever the transports deliver, the filter state [main] holds
    has entries for the four output stick channels only, and each stored
    value is zero or lies at or beyond the deadzone of its profile. *)
Theorem main_loop_stick_state (keys : list Ready) :
  exists st ops, main_loop initial keys = Ret (st, ops) /\ stick_inv st.
Proof.
  destruct (main_loop_inv (fun st _ => stick_inv st)) with (keys := keys) (st := initial)
    (tr := @nil SinkOp) as (st & ops & Hrun & _ & Hinv).
  - intros st tr ev st' ops _ Hinv Hstep. exact (event_step_stick_inv _ _ _ _ Hinv Hstep).
  - auto.
  - intros st tr v Hinv _ _. exact Hinv.
  - exact initial_dpad_wf.
  - exact initial_stick_inv.
  - exists st, ops. auto.
Qed.

(** X9. Whatever the transports deliver, the d-pad state last sent is
    the one derived from the current hat position and holds the four
    direction buttons only; so left and right are never both on, nor up
    and down. *)
Theorem main_loop_dpad_state (keys : list Ready) :
  exists st ops,
    main_loop initial keys = Ret (st, ops) /\
    dpad_sync st /\
    exists l r u d,
      last_dpad st !! e.BTN_DPAD_LEFT = Some l /\ last_dpad st !! e.BTN_DPAD_RIGHT = Some r /\
      last_dpad st !! e.BTN_DPAD_UP = Some u /\ last_dpad st !! e.BTN_DPAD_DOWN = Some d /\
      0 <= l /\ 0 <= r /\ l + r <= 1 /\ 0 <= u /\ 0 <= d /\ u + d <= 1.
Proof.
  destruct (main_loop_inv (fun st _ => dpad_sync st)) with (keys := keys) (st := initial)
    (tr := @nil SinkOp) as (st & ops & Hrun & _ & Hsync).
  - intros st tr ev st' ops _ Hinv Hstep. exact (event_step_dpad_sync _ _ _ _ Hinv Hstep).
  - auto.
  - intros st tr v Hinv _ _. exact Hinv.
  - exact initial_dpad_wf.
  - exact initial_dpad_sync.
  - exists st, ops. split; [exact Hrun|]. split; [exact Hsync|].
    destruct Hsync as [Hlook _]. unfold dpad_items in Hlook.
    do 4 eexists.
    split; [apply Hlook; rewrite !elem_of_cons; tauto|].
    split; [apply Hlook; rewrite !elem_of_cons; tauto|].
    split; [apply Hlook; rewrite !elem_of_cons; tauto|].
    split; [apply Hlook; rewrite !elem_of_cons; tauto|].
    repeat case_bool_decide; lia.
Qed.

(** ** What the sink sees on each analog channel *)

Section ChannelTraces.

Lemma channel_values_app (t c : Z) (a b : list SinkOp) :
  channel_values t c (a ++ b) = channel_values t c a ++ channel_values t c b.
Proof. unfold channel_values. apply omap_app. Qed.

Lemma last_or_cons (prev : option Z) (v : Z) (a : list Z) :
  last_or prev (v :: a) = last_or (Some v) a.
Proof.
  unfold last_or. destruct a as [|w a]; [reflexivity|].
  rewrite last_cons_cons. destruct (last (w :: a)) eqn:Hl; [reflexivity|].
  apply last_None in Hl. discriminate.
Qed.

Lemma chain_app (R : Z -> Z -> Prop) (a b : list Z) :
  forall prev, chain R prev (a ++ b) <-> chain R prev a /\ chain R (last_or prev a) b.
Proof.
  induction a as [|v a IH]; intros prev.
  - cbn. tauto.
  - cbn [app chain]. rewrite IH, last_or_cons. tauto.
Qed.

Lemma last_or_app (prev : option Z) (a b : list Z) :
  last_or prev (a ++ b) = last_or (last_or prev a) b.
Proof.
  revert prev. induction a as [|v a IH]; intros prev; [reflexivity|].
  cbn [app]. rewrite !last_or_cons. apply IH.
Qed.

(** Operations that write nothing to a channel add nothing to its values. *)
Lemma channel_values_other (t c : Z) (ops : list SinkOp) :
  (forall v, Write t c v ∉ ops) -> channel_values t c ops = [].
Proof.
  induction ops as [|op ops IH]; intros Hnone; [reflexivity|].
  unfold channel_values. cbn [omap list_omap].
  fold (channel_values t c ops). rewrite IH.
  - destruct op as [t' c' v|]; [|reflexivity].
    case_bool_decide as Heq; [|reflexivity].
    destruct Heq as [-> ->]. destruct (Hnone v). left.
  - intros v Hin. apply (Hnone v). right. exact Hin.
Qed.

Lemma channel_values_one (t c v : Z) :
  channel_values t c [Write t c v] = [v].
Proof.
  unfold channel_values. cbn [omap list_omap].
  rewrite bool_decide_eq_true_2 by auto. reflexivity.
Qed.

(** A list of operations writes to a channel or it does not. *)
Lemma channel_written_or_not (t c : Z) (ops : list SinkOp) :
  (exists v, Write t c v ∈ ops) \/ (forall v, Write t c v ∉ ops).
Proof.
  induction ops as [|op ops [(v & Hin)|Hnone]].
  - right. intros v Hin. inversion Hin.
  - left. exists v. right. exact Hin.
  - destruct op as [t' c' v'|].
    + destruct (decide (t' = t /\ c' = c)) as [[-> ->]|Hne].
      * left. exists v'. left.
      * right. intros v Hin. apply elem_of_cons in Hin as [Heq|Hin].
        -- injection Heq as -> -> _. tauto.
        -- exact (Hnone v Hin).
    + right. intros v Hin. apply elem_of_cons in Hin as [Heq|Hin].
      * discriminate Heq.
      * exact (Hnone v Hin).
Qed.

Lemma button_ops_key (ev : InputEvent) (op : SinkOp) :
  op ∈ button_ops ev -> exists c v, op = Write e.EV_KEY c v.
Proof.
  unfold button_ops. cbv zeta. case_bool_decide; [|intros H0; inversion H0].
  intros H0. apply list_elem_of_singleton in H0. eauto.
Qed.

Lemma key_writes_key (items : list (Z * Z)) (op : SinkOp) :
  op ∈ key_write <$> items -> exists c v, op = Write e.EV_KEY c v.
Proof.
  intros H0. apply list_elem_of_fmap in H0 as ([c v] & -> & _). unfold key_write. eauto.
Qed.

Lemma forward_channel (axis : Z) (f : option Z) (op : SinkOp) :
  op ∈ forward axis f -> exists v, f = Some v /\ op = Write e.EV_ABS axis v.
Proof.
  destruct f as [v|]; cbn [forward]; [|intros H0; inversion H0].
  intros H0. apply list_elem_of_singleton in H0. eauto.
Qed.

(** An event writes to an analog channel only through the branch that
    feeds it: the left-trigger branch or a stick branch. *)
Lemma event_step_channel (st st' : Engine) (ev : InputEvent) (ops : list SinkOp) (c v : Z) :
  event_step st ev st' ops -> Write e.EV_ABS c v ∈ ops ->
  (c = e.ABS_Z /\ ev_code ev = e.ABS_RX /\ v = ev_value ev /\
   ops = [Write e.EV_ABS e.ABS_Z v] /\
   st' = set_last_l2 st v /\ v <> last_l2 st) \/
  (stick_route (ev_code ev) = Some c /\ c ∈ stick_outputs /\
   ops = [Write e.EV_ABS c v] /\
   (apply_stick_filter c (ev_value ev) (last_stick st)).1 = Some v /\
   st' = set_last_stick st (apply_stick_filter c (ev_value ev) (last_stick st)).2).
Proof.
  intros Hstep Hin. destruct Hstep as [Hk | axis Habs Hroute | Habs Hc Hnew | | Hhat |].
  - apply button_ops_key in Hin as (c' & v' & Heq). discriminate Heq.
  - right. apply forward_channel in Hin as (v' & Hf & Heq).
    injection Heq as -> ->. rewrite Hf. cbn [forward].
    split; [exact Hroute|]. split; [exact (proj1 (stick_route_outputs _ _ Hroute))|].
    refine (conj eq_refl (conj eq_refl eq_refl)).
  - left. apply list_elem_of_singleton in Hin. injection Hin as -> ->.
    refine (conj eq_refl (conj Hc (conj eq_refl (conj eq_refl (conj eq_refl Hnew))))).
  - inversion Hin.
  - apply key_writes_key in Hin as (c' & v' & Heq). discriminate Heq.
  - inversion Hin.
Qed.

Lemma stick_outputs_not_triggers (c : Z) :
  c ∈ stick_outputs -> c <> e.ABS_Z /\ c <> e.ABS_RZ.
Proof.
  unfold stick_outputs. rewrite !elem_of_cons, elem_of_nil.
  intros [->|[->|[->|[->|[]]]]]; split; discriminate.
Qed.

(** The state fields an event leaves alone, by the channel it writes. *)
Lemma event_step_last_r2 (st st' : Engine) (ev : InputEvent) (ops : list SinkOp) :
  event_step st ev st' ops -> last_r2 st' = last_r2 st.
Proof.
  intros Hstep. destruct Hstep; try reflexivity.
  cbn [last_r2 set_last_dpad]. apply after_hat_last_r2.
Qed.

Lemma event_step_quiet_l2 (st st' : Engine) (ev : InputEvent) (ops : list SinkOp) :
  event_step st ev st' ops -> (forall v, Write e.EV_ABS e.ABS_Z v ∉ ops) ->
  last_l2 st' = last_l2 st.
Proof.
  intros Hstep Hnone. destruct Hstep; try reflexivity.
  - destruct (Hnone (ev_value ev)). left.
  - cbn [last_l2 set_last_dpad]. apply after_hat_last_l2.
Qed.

Lemma event_step_quiet_stick (st st' : Engine) (ev : InputEvent) (ops : list SinkOp) (c : Z) :
  event_step st ev st' ops -> (forall v, Write e.EV_ABS c v ∉ ops) ->
  last_stick st' !! c = last_stick st !! c.
Proof.
  intros Hstep Hnone. destruct Hstep as [| axis Habs Hroute | | | |]; try reflexivity.
  - cbn [last_stick set_last_stick].
    destruct (decide (c = axis)) as [->|Hne]; [|apply apply_stick_filter_other; exact Hne].
    destruct (apply_stick_filter axis (ev_value ev) (last_stick st)).1 as [v|] eqn:Hres.
    + destruct (Hnone v). cbn [forward]. left.
    + rewrite (apply_stick_filter_suppressed _ _ _ Hres). reflexivity.
  - cbn [last_stick set_last_dpad]. rewrite after_hat_last_stick. reflexivity.
Qed.

End ChannelTraces.

Section TraceInvariants.

Lemma trigger_trace_event (st st' : Engine) (tr ops : list SinkOp) (ev : InputEvent) :
  trigger_trace st tr -> event_step st ev st' ops -> trigger_trace st' (tr ++ ops).
Proof.
  intros ((Hz & Hzl) & (Hrz & Hrzl) & Hrange) Hstep.
  assert (Hnorz : channel_values e.EV_ABS e.ABS_RZ ops = []).
  { apply channel_values_other. intros v Hin.
    destruct (event_step_channel _ _ _ _ _ _ Hstep Hin)
      as [(Hc & _)|(_ & Hc & _)]; [discriminate Hc|].
    apply stick_outputs_not_triggers in Hc. tauto. }
  unfold trigger_trace.
  rewrite !channel_values_app, Hnorz, app_nil_r, (event_step_last_r2 _ _ _ _ Hstep).
  split; [|auto].
  destruct (channel_written_or_not e.EV_ABS e.ABS_Z ops) as [(v & Hin)|Hnone].
  - destruct (event_step_channel _ _ _ _ _ _ Hstep Hin)
      as [(_ & _ & _ & -> & -> & Hnew)|(_ & Hc & _)].
    + rewrite channel_values_one. cbn [last_l2 set_last_l2].
      rewrite chain_app, last_or_app, Hzl. cbn [chain].
      split; [|reflexivity]. split; [exact Hz|]. split; [|exact I].
      intros p Hp. injection Hp as <-. exact Hnew.
    + apply stick_outputs_not_triggers in Hc. tauto.
  - rewrite (channel_values_other _ _ _ Hnone), app_nil_r.
    rewrite (event_step_quiet_l2 _ _ _ _ Hstep Hnone). auto.
Qed.

Lemma trigger_trace_syn (st : Engine) (tr : list SinkOp) :
  trigger_trace st tr -> trigger_trace st (tr ++ [Syn]).
Proof.
  unfold trigger_trace. rewrite !channel_values_app. cbn [channel_values omap list_omap].
  rewrite !app_nil_r. auto.
Qed.

Lemma trigger_trace_r2 (st : Engine) (tr : list SinkOp) (v : Z) :
  trigger_trace st tr -> 0 <= v <= 1023 -> v <> last_r2 st ->
  trigger_trace (set_last_r2 st v) (tr ++ [Write e.EV_ABS e.ABS_RZ v; Syn]).
Proof.
  intros ((Hz & Hzl) & (Hrz & Hrzl) & Hrange) Hv Hnew.
  unfold trigger_trace. rewrite !channel_values_app.
  change [Write e.EV_ABS e.ABS_RZ v; Syn] with ([Write e.EV_ABS e.ABS_RZ v] ++ [Syn]).
  rewrite !channel_values_app, channel_values_one.
  cbn [channel_values omap list_omap last_l2 last_r2 set_last_r2].
  rewrite bool_decide_eq_false_2 by (intros [_ Hc]; discriminate Hc).
  cbn [app]. rewrite !app_nil_r.
  split; [auto|]. split; [|exact Hv].
  rewrite chain_app, last_or_app, Hrzl. cbn [chain].
  split; [|reflexivity]. split; [exact Hrz|]. split; [|exact I].
  intros p Hp. injection Hp as <-. exact Hnew.
Qed.

Lemma stick_trace_event (c : Z) (st st' : Engine) (tr ops : list SinkOp) (ev : InputEvent) :
  c ∈ stick_outputs ->
  stick_trace c st tr -> event_step st ev st' ops -> stick_trace c st' (tr ++ ops).
Proof.
  intros Hc (Hchain & Hlast) Hstep. unfold stick_trace. rewrite channel_values_app.
  destruct (channel_written_or_not e.EV_ABS c ops) as [(v & Hin)|Hnone].
  - destruct (event_step_channel _ _ _ _ _ _ Hstep Hin)
      as [(Hz & _)|(_ & _ & -> & Hres & ->)].
    + apply stick_outputs_not_triggers in Hc. tauto.
    + rewrite channel_values_one, chain_app, last_or_app, Hlast.
      cbn [chain last_stick set_last_stick].
      destruct (apply_stick_filter_accepted _ _ _ _ Hres) as [_ Hstore].
      rewrite Hstore, lookup_insert_eq.
      split; [|reflexivity]. split; [exact Hchain|]. split; [|exact I].
      intros p Hp.
      exact (apply_stick_filter_moves _ _ _ _ _ Hres Hp).
  - rewrite (channel_values_other _ _ _ Hnone), app_nil_r.
    rewrite (event_step_quiet_stick _ _ _ _ _ Hstep Hnone). auto.
Qed.

Lemma stick_trace_syn (c : Z) (st : Engine) (tr : list SinkOp) :
  stick_trace c st tr -> stick_trace c st (tr ++ [Syn]).
Proof.
  unfold stick_trace. rewrite channel_values_app. cbn [channel_values omap list_omap].
  rewrite app_nil_r. auto.
Qed.

Lemma stick_trace_r2 (c : Z) (st : Engine) (tr : list SinkOp) (v : Z) :
  c ∈ stick_outputs -> stick_trace c st tr ->
  stick_trace c (set_last_r2 st v) (tr ++ [Write e.EV_ABS e.ABS_RZ v; Syn]).
Proof.
  intros Hc Htr. unfold stick_trace. rewrite channel_values_app.
  rewrite (channel_values_other e.EV_ABS c [Write e.EV_ABS e.ABS_RZ v; Syn]).
  - rewrite app_nil_r. exact Htr.
  - intros w Hin. apply stick_outputs_not_triggers in Hc.
    rewrite !elem_of_cons, elem_of_nil in Hin.
    destruct Hin as [Heq|[Heq|[]]]; [injection Heq as Hcz _; tauto | discriminate Heq].
Qed.

End TraceInvariants.

(** X10. On both trigger channels the sink never gets the same value
    twice in a row, counting the zero [make_uinput] writes first; the
    engine's [last_l2] and [last_r2] are the values the sink got last,
    and [last_r2] stays within [0, 1023]. *)
Theorem main_trigger_trace (keys : list Ready) :
  exists st ops,
    main keys = Ret (st, make_uinput ++ ops) /\
    trigger_trace st (make_uinput ++ ops).
Proof.
  destruct (main_loop_inv trigger_trace) with (keys := keys) (st := initial)
    (tr := make_uinput) as (st & ops & Hrun & _ & Htr).
  - intros st tr ev st' ops _ Htr Hstep. exact (trigger_trace_event _ _ _ _ _ Htr Hstep).
  - exact trigger_trace_syn.
  - exact trigger_trace_r2.
  - exact initial_dpad_wf.
  - unfold trigger_trace. cbn. repeat split; try lia; intros p Hp; discriminate Hp.
  - exists st, ops. unfold main. rewrite Hrun. auto.
Qed.

(** X11. On each stick channel the loop never writes the same value twice
    in a row, a nonzero value it writes lies at least the jitter threshold
    from the one written before, and the filter's entry for the channel is
    the value written last (no entry when none was). *)
Theorem main_loop_stick_trace (c : Z) (keys : list Ready) :
  c ∈ stick_outputs ->
  exists st ops,
    main_loop initial keys = Ret (st, ops) /\ stick_trace c st ops.
Proof.
  intros Hc.
  destruct (main_loop_inv (stick_trace c)) with (keys := keys) (st := initial)
    (tr := @nil SinkOp) as (st & ops & Hrun & _ & Htr).
  - intros st tr ev st' ops _ Htr Hstep. exact (stick_trace_event c _ _ _ _ _ Hc Htr Hstep).
  - apply stick_trace_syn.
  - intros st tr v Htr _ _. exact (stick_trace_r2 c _ _ v Hc Htr).
  - exact initial_dpad_wf.
  - unfold stick_trace. cbn. split; [exact I | reflexivity].
  - exists st, ops. auto.
Qed.

(** The left stick X moving out, jittering, moving on and coming back. *)
Lemma main_loop_stick_trace_witness :
  exists st ops,
    main_loop initial
      [ Evdev (Some [ abs_event e.ABS_X 4000; abs_event e.ABS_X 4050;
                      abs_event e.ABS_X 9000; abs_event e.ABS_X 10 ]) ]
    = Ret (st, ops) /\
    stick_trace e.ABS_X st ops.
Proof.
  apply (main_loop_stick_trace e.ABS_X). left.
Defined.

(** ** How the two transports and the batches compose *)

Section Composition.

(** The right-trigger memory rides through an event untouched: the event
    neither reads nor writes it. *)
Lemma apply_dpad_set_last_r2 (st : Engine) (v : Z) :
  apply_dpad (set_last_r2 st v) =
  let* '(st', ops) := apply_dpad st in Ret (set_last_r2 st' v, ops).
Proof.
  unfold apply_dpad. cbn [hat_x hat_y last_dpad set_last_r2].
  destruct (dpad_loop (dpad_items (hat_x st) (hat_y st)) (last_dpad st)) as [[l o]|x];
    reflexivity.
Qed.

Lemma on_event_set_last_r2 (st : Engine) (ev : InputEvent) (v : Z) :
  on_event (set_last_r2 st v) ev =
  let* '(st', ops) := on_event st ev in Ret (set_last_r2 st' v, ops).
Proof.
  unfold on_event. cbn [last_stick last_l2 set_last_r2].
  repeat case_bool_decide; try reflexivity.
  - destruct (apply_stick_filter (ev_code ev) (ev_value ev) (last_stick st)); reflexivity.
  - destruct (apply_stick_filter e.ABS_RX (ev_value ev) (last_stick st)); reflexivity.
  - destruct (apply_stick_filter e.ABS_RY (ev_value ev) (last_stick st)); reflexivity.
  - exact (apply_dpad_set_last_r2 (set_hat_x st (ev_value ev)) v).
  - exact (apply_dpad_set_last_r2 (set_hat_y st (ev_value ev)) v).
Qed.

Lemma for_each_event_set_last_r2 (batch : list InputEvent) :
  forall (st : Engine) (v : Z),
  for_each_event (set_last_r2 st v) batch =
  let* '(st', ops) := for_each_event st batch in Ret (set_last_r2 st' v, ops).
Proof.
  induction batch as [|ev rest IH]; intros st v; [reflexivity|].
  cbn [for_each_event]. rewrite on_event_set_last_r2.
  destruct (on_event st ev) as [[st1 ops1]|x]; [|reflexivity].
  cbn [bind]. rewrite IH.
  destruct (for_each_event st1 rest) as [[st2 ops2]|x]; reflexivity.
Qed.

Lemma for_each_event_last_r2 (batch : list InputEvent) :
  forall (st st' : Engine) (ops : list SinkOp),
  dpad_wf st -> for_each_event st batch = Ret (st', ops) -> last_r2 st' = last_r2 st.
Proof.
  induction batch as [|ev rest IH]; intros st st' ops Hwf Hrun.
  - injection Hrun as <- _. reflexivity.
  - destruct (on_event_step st ev (fun _ => Hwf)) as (st1 & ops1 & Hrun1 & Hstep).
    cbn [for_each_event] in Hrun. rewrite Hrun1 in Hrun. cbn [bind] in Hrun.
    destruct (for_each_event st1 rest) as [[st2 ops2]|x] eqn:Hrest; [|discriminate Hrun].
    injection Hrun as <- _.
    rewrite (IH _ _ _ (event_step_wf _ _ _ _ Hwf Hstep) Hrest).
    exact (event_step_last_r2 _ _ _ _ Hstep).
Qed.

Lemma for_each_event_app (b1 b2 : list InputEvent) :
  forall st : Engine,
  for_each_event st (b1 ++ b2) =
  let* '(st1, ops1) := for_each_event st b1 in
  let* '(st2, ops2) := for_each_event st1 b2 in
  Ret (st2, ops1 ++ ops2).
Proof.
  induction b1 as [|ev rest IH]; intros st.
  - cbn [app for_each_event bind].
    destruct (for_each_event st b2) as [[st2 ops2]|x]; reflexivity.
  - cbn [app for_each_event].
    destruct (on_event st ev) as [[sta opsa]|x]; [|reflexivity].
    cbn [bind]. rewrite IH.
    destruct (for_each_event sta rest) as [[stb opsb]|x]; [|reflexivity].
    cbn [bind].
    destruct (for_each_event stb b2) as [[stc opsc]|x]; [|reflexivity].
    cbn [bind]. rewrite app_assoc. reflexivity.
Qed.

(** What serving a report does depends on the state through [last_r2]
    alone. *)
Lemma on_hidraw_shape (st : Engine) (data : list byte) :
  exists (change : option Z),
    forall st0 : Engine, last_r2 st0 = last_r2 st ->
    on_hidraw st0 (Some data) =
    match change with
    | Some v => Ret (set_last_r2 st0 v, [Write e.EV_ABS e.ABS_RZ v; Syn])
    | None => Ret (st0, [])
    end.
Proof.
  destruct (parse_report6_total data) as [Hnone|(raw & Hraw)].
  - exists None. intros st0 _. unfold on_hidraw. rewrite Hnone. reflexivity.
  - destruct (decide (scaled (clamp_delta raw) = last_r2 st)) as [Heq|Hne].
    + exists None. intros st0 H0. unfold on_hidraw. rewrite Hraw. cbn [bind].
      rewrite centered_u16_to_trigger_scaled. cbn [bind].
      rewrite bool_decide_eq_false_2 by (rewrite H0; intros H1; apply H1; exact Heq).
      reflexivity.
    + exists (Some (scaled (clamp_delta raw))). intros st0 H0.
      unfold on_hidraw. rewrite Hraw. cbn [bind].
      rewrite centered_u16_to_trigger_scaled. cbn [bind].
      rewrite bool_decide_eq_true_2 by (rewrite H0; exact Hne).
      reflexivity.
Qed.

End Composition.

(** X12. The two transports do not interfere: serving a report and then a
    batch ends in the same state as serving the batch and then the report,
    and each sends what it would have sent alone — only the order of the
    two groups of operations differs. *)
Theorem transports_commute (st : Engine) (data : list byte) (batch : list InputEvent) :
  dpad_wf st ->
  exists st' st_h st_e ops_h ops_e,
    on_hidraw st (Some data) = Ret (st_h, ops_h) /\
    on_evdev st (Some batch) = Ret (st_e, ops_e) /\
    main_loop st [Hidraw (Some data); Evdev (Some batch)] = Ret (st', ops_h ++ ops_e) /\
    main_loop st [Evdev (Some batch); Hidraw (Some data)] = Ret (st', ops_e ++ ops_h).
Proof.
  intros Hwf.
  destruct (for_each_event_ops batch st Hwf) as (st_e & ws & Hrun & _ & _).
  pose proof (for_each_event_last_r2 batch st st_e ws Hwf Hrun) as Hr2.
  destruct (on_hidraw_shape st data) as (change & Hshape).
  pose proof (Hshape st eq_refl) as Hh. pose proof (Hshape st_e Hr2) as Hhe.
  assert (He : on_evdev st (Some batch) = Ret (st_e, ws ++ [Syn])).
  { cbn [on_evdev]. rewrite Hrun. reflexivity. }
  destruct change as [v|].
  - exists (set_last_r2 st_e v), (set_last_r2 st v), st_e,
      [Write e.EV_ABS e.ABS_RZ v; Syn], (ws ++ [Syn]).
    split; [exact Hh|]. split; [exact He|]. split.
    + cbn [main_loop serve]. rewrite Hh. cbn [bind on_evdev].
      rewrite for_each_event_set_last_r2, Hrun. cbn [bind].
      rewrite app_nil_r. reflexivity.
    + cbn [main_loop serve]. rewrite He. cbn [bind]. rewrite Hhe. cbn [bind].
      rewrite app_nil_r. reflexivity.
  - exists st_e, st, st_e, [], (ws ++ [Syn]).
    split; [exact Hh|]. split; [exact He|]. split.
    + cbn [main_loop serve]. rewrite Hh. cbn [bind]. rewrite He. cbn [bind].
      rewrite app_nil_r. reflexivity.
    + cbn [main_loop serve]. rewrite He. cbn [bind]. rewrite Hhe. cbn [bind].
      rewrite !app_nil_r. reflexivity.
Qed.

Lemma transports_commute_witness :
  exists st' st_h st_e ops_h ops_e,
    on_hidraw initial
      (Some [x06; x00; x00; x00; x00; x00; x00; x00; x00; xff; xff; x00; x00; x00])
      = Ret (st_h, ops_h) /\
    on_evdev initial (Some [abs_event e.ABS_RX 300; key_event e.BTN_SOUTH 1])
      = Ret (st_e, ops_e) /\
    main_loop initial
      [ Hidraw (Some [x06; x00; x00; x00; x00; x00; x00; x00; x00; xff; xff; x00; x00; x00]);
        Evdev (Some [abs_event e.ABS_RX 300; key_event e.BTN_SOUTH 1]) ]
      = Ret (st', ops_h ++ ops_e) /\
    main_loop initial
      [ Evdev (Some [abs_event e.ABS_RX 300; key_event e.BTN_SOUTH 1]);
        Hidraw (Some [x06; x00; x00; x00; x00; x00; x00; x00; x00; xff; xff; x00; x00; x00]) ]
      = Ret (st', ops_e ++ ops_h).
Proof.
  apply transports_commute. exact initial_dpad_wf.
Defined.

(** X13. Where a batch is cut changes the commits only: one batch holding
    two runs of events ends in the same state and sends the same writes in
    the same order as the two runs served as separate batches; the separate
    batches add one commit, between the two runs. *)
Theorem batch_split (st : Engine) (b1 b2 : list InputEvent) :
  dpad_wf st ->
  exists st' ws1 ws2,
    on_evdev st (Some (b1 ++ b2)) = Ret (st', ws1 ++ ws2 ++ [Syn]) /\
    main_loop st [Evdev (Some b1); Evdev (Some b2)] =
      Ret (st', (ws1 ++ [Syn]) ++ ws2 ++ [Syn]) /\
    Forall (fun op => is_syn op = false) (ws1 ++ ws2).
Proof.
  intros Hwf.
  destruct (for_each_event_ops b1 st Hwf) as (st1 & ws1 & Hrun1 & Hwf1 & Hops1).
  destruct (for_each_event_ops b2 st1 Hwf1) as (st2 & ws2 & Hrun2 & _ & Hops2).
  exists st2, ws1, ws2. split; [|split].
  - cbn [on_evdev]. rewrite for_each_event_app, Hrun1. cbn [bind].
    rewrite Hrun2. cbn [bind]. rewrite app_assoc. reflexivity.
  - cbn [main_loop serve on_evdev]. rewrite Hrun1. cbn [bind].
    rewrite Hrun2. cbn [bind]. rewrite app_nil_r. reflexivity.
  - apply Forall_app. split.
    + eapply Forall_impl; [exact Hops1|].
      intros op (ev & _ & Hop). exact (op_from_event_not_syn _ _ Hop).
    + eapply Forall_impl; [exact Hops2|].
      intros op (ev & _ & Hop). exact (op_from_event_not_syn _ _ Hop).
Qed.

Lemma batch_split_witness :
  exists st' ws1 ws2,
    on_evdev initial (Some ([key_event e.BTN_SOUTH 1] ++ [abs_event e.ABS_RX 300]))
      = Ret (st', ws1 ++ ws2 ++ [Syn]) /\
    main_loop initial [ Evdev (Some [key_event e.BTN_SOUTH 1]);
                        Evdev (Some [abs_event e.ABS_RX 300]) ]
      = Ret (st', (ws1 ++ [Syn]) ++ ws2 ++ [Syn]) /\
    Forall (fun op => is_syn op = false) (ws1 ++ ws2).
Proof.
  apply batch_split. exact initial_dpad_wf.
Defined.

(** ** Commits *)

Section Commits.

Lemma serve_committed (st : Engine) (r : Ready) :
  dpad_wf st ->
  exists st' ops,
    serve st r = Ret (st', ops) /\ dpad_wf st' /\ (ops = [] \/ last ops = Some Syn).
Proof.
  intros Hwf. destruct r as [[data|]|[batch|]]; cbn [serve].
  - destruct (on_hidraw_shape st data) as (change & Hshape).
    rewrite (Hshape st eq_refl). destruct change as [v|].
    + eexists _, _. split; [reflexivity|]. split; [exact Hwf|]. right. reflexivity.
    + eexists _, _. split; [reflexivity|]. split; [exact Hwf|]. left. reflexivity.
  - exists st, []. auto.
  - destruct (for_each_event_ops batch st Hwf) as (st' & ws & Hrun & Hwf' & _).
    exists st', (ws ++ [Syn]). cbn [on_evdev]. rewrite Hrun.
    split; [reflexivity|]. split; [exact Hwf'|]. right. apply last_snoc.
  - exists st, []. auto.
Qed.

Lemma main_loop_committed (keys : list Ready) :
  forall st, dpad_wf st ->
  exists st' ops,
    main_loop st keys = Ret (st', ops) /\ (ops = [] \/ last ops = Some Syn).
Proof.
  induction keys as [|r rest IH]; intros st Hwf.
  - exists st, []. auto.
  - destruct (serve_committed st r Hwf) as (st1 & ops1 & Hrun1 & Hwf1 & Hend1).
    destruct (IH st1 Hwf1) as (st2 & ops2 & Hrun2 & Hend2).
    exists st2, (ops1 ++ ops2). cbn [main_loop].
    rewrite Hrun1. cbn [bind]. rewrite Hrun2. cbn [bind].
    split; [reflexivity|].
    destruct Hend2 as [->|Hlast2].
    + rewrite app_nil_r. exact Hend1.
    + right. destruct ops2 as [|op ops2] using rev_ind; [discriminate Hlast2|].
      rewrite app_assoc, last_snoc. rewrite last_snoc in Hlast2. exact Hlast2.
Qed.

End Commits.

(** X14. Nothing stays uncommitted: whatever the transports deliver, once
    the loop has served the ready keys every write it issued is followed,
    later in the sink's history, by a frame commit. *)
Theorem main_loop_writes_committed (keys : list Ready) :
  exists st ops,
    main_loop initial keys = Ret (st, ops) /\
    forall i t c v, ops !! i = Some (Write t c v) ->
      exists j, (i < j)%nat /\ ops !! j = Some Syn.
Proof.
  destruct (main_loop_committed keys initial initial_dpad_wf) as (st & ops & Hrun & Hend).
  exists st, ops. split; [exact Hrun|].
  intros i t c v Hi. destruct Hend as [->|Hlast]; [discriminate Hi|].
  destruct ops as [|op ops] using rev_ind; [discriminate Hi|].
  rewrite last_snoc in Hlast. injection Hlast as ->.
  exists (length ops). split.
  - pose proof (lookup_lt_Some _ _ _ Hi) as Hlt.
    rewrite length_app in Hlt. cbn [length] in Hlt.
    destruct (decide (i = length ops)) as [->|Hne]; [|lia].
    rewrite list_lookup_middle in Hi by reflexivity. discriminate Hi.
  - apply list_lookup_middle. reflexivity.
Qed.

(** ** Routing of the analog events *)

Section Routing.

Lemma stick_route_routes (code c : Z) :
  stick_route code = Some c -> routes_stick code c.
Proof.
  unfold stick_route, routes_stick.
  repeat case_bool_decide; intros Heq; try discriminate Heq;
    injection Heq as <-; tauto.
Qed.

Lemma dpad_changes_app (a b : list (Z * Z)) (last : gmap Z Z) :
  dpad_changes (a ++ b) last = dpad_changes a last ++ dpad_changes b last.
Proof. unfold dpad_changes. apply filter_app. Qed.

Lemma dpad_changes_none (items : list (Z * Z)) (last : gmap Z Z) :
  (forall btn state, (btn, state) ∈ items -> last !! btn = Some state) ->
  dpad_changes items last = [].
Proof.
  unfold dpad_changes. induction items as [|[b s] rest IH]; intros Hall; [reflexivity|].
  rewrite filter_cons. cbn [fst snd].
  rewrite decide_False by (intros Hne; apply Hne; apply Hall; left).
  apply IH. intros btn state Hin. apply Hall. right. exact Hin.
Qed.

Lemma store_all_id (items : list (Z * Z)) (last : gmap Z Z) :
  (forall btn state, (btn, state) ∈ items -> last !! btn = Some state) ->
  store_all items last = last.
Proof.
  induction items as [|[b s] rest IH]; intros Hall; [reflexivity|].
  change (store_all ((b, s) :: rest) last) with (store_all rest (<[b := s]> last)).
  rewrite insert_id by (apply Hall; left).
  apply IH. intros btn state Hin. apply Hall. right. exact Hin.
Qed.

Lemma dpad_items_halves (hx hy : Z) : dpad_items hx hy = x_items hx ++ y_items hy.
Proof. reflexivity. Qed.

Lemma dpad_sync_halves (st : Engine) :
  dpad_sync st ->
  (forall btn state, (btn, state) ∈ x_items (hat_x st) -> last_dpad st !! btn = Some state) /\
  (forall btn state, (btn, state) ∈ y_items (hat_y st) -> last_dpad st !! btn = Some state).
Proof.
  intros [Hlook _]. rewrite dpad_items_halves in Hlook.
  split; intros btn state Hin; apply Hlook; apply elem_of_app; tauto.
Qed.

Lemma x_items_states (hx btn state : Z) :
  (btn, state) ∈ x_items hx ->
  btn ∈ [e.BTN_DPAD_LEFT; e.BTN_DPAD_RIGHT] /\ (state = 0 \/ state = 1).
Proof.
  unfold x_items. rewrite !elem_of_cons, !elem_of_nil.
  intros [Heq|[Heq|[]]]; injection Heq as -> ->; (split; [tauto|]);
    case_bool_decide; tauto.
Qed.

Lemma y_items_states (hy btn state : Z) :
  (btn, state) ∈ y_items hy ->
  btn ∈ [e.BTN_DPAD_UP; e.BTN_DPAD_DOWN] /\ (state = 0 \/ state = 1).
Proof.
  unfold y_items. rewrite !elem_of_cons, !elem_of_nil.
  intros [Heq|[Heq|[]]]; injection Heq as -> ->; (split; [tauto|]);
    case_bool_decide; tauto.
Qed.

Lemma set_hat_x_same (st : Engine) : set_last_dpad (set_hat_x st (hat_x st)) (last_dpad st) = st.
Proof. destruct st. reflexivity. Qed.

Lemma set_hat_y_same (st : Engine) : set_last_dpad (set_hat_y st (hat_y st)) (last_dpad st) = st.
Proof. destruct st. reflexivity. Qed.

End Routing.

(** X15. Where analog events go.  An analog event other than a hat event
    never raises and writes at most once.  A stick write goes from input
    [ABS_X] to output [ABS_X], [ABS_Y] to [ABS_Y], [ABS_Z] to [ABS_RX] and
    [ABS_RZ] to [ABS_RY], and carries the reading after the deadzone of the
    output channel's profile; a left-trigger write goes from input [ABS_RX]
    to output [ABS_Z] and carries the reading as it came.  Any other axis
    code writes nothing and changes nothing. *)
Theorem abs_event_routing (st : Engine) (ev : InputEvent) :
  ev_type ev = e.EV_ABS -> ~ is_hat_event ev ->
  exists st' ops,
    on_event st ev = Ret (st', ops) /\
    (length ops <= 1)%nat /\
    (forall op, op ∈ ops ->
       exists c v, op = Write e.EV_ABS c v /\
         ((routes_stick (ev_code ev) c /\ v = post_deadzone c (ev_value ev)) \/
          (ev_code ev = e.ABS_RX /\ c = e.ABS_Z /\ v = ev_value ev))) /\
    (ev_code ev ∉ handled_abs -> ops = [] /\ st' = st).
Proof.
  intros Habs Hnhat.
  destruct (on_event_step st ev) as (st' & ops & Hrun & Hstep).
  { intros Hhat. destruct (Hnhat Hhat). }
  exists st', ops. split; [exact Hrun|].
  destruct Hstep as [Hk | axis _ Hroute | _ Hc Hnew | _ Hc Hsame | Hhat | Hnk Hign].
  - rewrite Habs in Hk. discriminate Hk.
  - split; [|split].
    + destruct (apply_stick_filter axis (ev_value ev) (last_stick st)).1; cbn; lia.
    + intros op Hin. apply forward_channel in Hin as (v & Hres & ->).
      exists axis, v. split; [reflexivity|]. left.
      split; [exact (stick_route_routes _ _ Hroute)|].
      exact (proj1 (apply_stick_filter_accepted _ _ _ _ Hres)).
    + intros Hun. exfalso. apply Hun.
      pose proof (proj2 (stick_route_outputs _ _ Hroute)) as Hin.
      unfold stick_inputs in Hin. unfold handled_abs.
      rewrite !elem_of_cons in *. tauto.
  - split; [cbn; lia|]. split.
    + intros op Hin. apply list_elem_of_singleton in Hin as ->.
      exists e.ABS_Z, (ev_value ev). split; [reflexivity|]. right. auto.
    + intros Hun. exfalso. apply Hun. unfold handled_abs. rewrite Hc.
      rewrite !elem_of_cons. tauto.
  - split; [cbn; lia|]. split; [intros op Hin; inversion Hin | auto].
  - destruct (Hnhat Hhat).
  - split; [cbn; lia|]. split; [intros op Hin; inversion Hin | auto].
Qed.

(** The right stick's X axis arrives as [ABS_Z] and leaves as [ABS_RX]. *)
Lemma abs_event_routing_witness :
  exists st' ops,
    on_event initial (abs_event e.ABS_Z 12000) = Ret (st', ops) /\
    (length ops <= 1)%nat /\
    (forall op, op ∈ ops ->
       exists c v, op = Write e.EV_ABS c v /\
         ((routes_stick e.ABS_Z c /\ v = post_deadzone c 12000) \/
          (e.ABS_Z = e.ABS_RX /\ c = e.ABS_Z /\ v = 12000))) /\
    (e.ABS_Z ∉ handled_abs -> ops = [] /\ st' = initial).
Proof.
  apply (abs_event_routing initial (abs_event e.ABS_Z 12000)).
  - reflexivity.
  - intros [_ [Hc|Hc]]; discriminate Hc.
Defined.

(** X16. A hat event, in a state where the d-pad state last sent matches
    the hat position, writes at most two buttons, all of them buttons of
    the axis that moved and each with state 0 or 1; when the event repeats
    the position the axis already has, it writes nothing and changes
    nothing. *)
Theorem hat_event_writes (st : Engine) (ev : InputEvent) :
  dpad_sync st -> is_hat_event ev ->
  exists st' ops,
    on_event st ev = Ret (st', ops) /\
    (length ops <= 2)%nat /\
    (forall op, op ∈ ops ->
       exists btn state, op = Write e.EV_KEY btn state /\
         btn ∈ hat_buttons (ev_code ev) /\ (state = 0 \/ state = 1)) /\
    (ev_value ev = hat_position st (ev_code ev) -> ops = [] /\ st' = st).
Proof.
  intros Hsync Hhat.
  assert (Hwf : dpad_wf st).
  { intros btn Hbtn. rewrite <- (dpad_items_keys (hat_x st) (hat_y st)) in Hbtn.
    apply list_elem_of_fmap in Hbtn as ([b s] & -> & Hin).
    exists s. exact (proj1 Hsync b s Hin). }
  pose proof (on_event_hat st ev Hwf Hhat) as Hrun. cbv zeta in Hrun.
  destruct (dpad_sync_halves st Hsync) as [Hx Hy].
  eexists _, _. split; [exact Hrun|].
  destruct Hhat as [_ [Hc|Hc]]; unfold hat_buttons, hat_position; rewrite Hc;
    cbn [bool_decide decide_rel]; cbn [hat_x hat_y set_hat_x set_hat_y];
    rewrite dpad_items_halves, dpad_changes_app.
  - rewrite (dpad_changes_none (y_items (hat_y st))) by exact Hy.
    rewrite app_nil_r. split; [|split].
    + rewrite length_fmap. unfold dpad_changes.
      etransitivity; [apply length_filter|]. cbn. lia.
    + intros op Hin. apply list_elem_of_fmap in Hin as ([b s] & -> & Hin).
      unfold dpad_changes in Hin. apply list_elem_of_filter in Hin as [_ Hin].
      exists b, s. split; [reflexivity|]. exact (x_items_states _ _ _ Hin).
    + intros Hsame. rewrite Hsame.
      rewrite (dpad_changes_none (x_items (hat_x st))) by exact Hx.
      split; [reflexivity|].
      rewrite <- dpad_items_halves, store_all_id by exact (proj1 Hsync).
      apply set_hat_x_same.
  - rewrite (dpad_changes_none (x_items (hat_x st))) by exact Hx.
    cbn [app]. split; [|split].
    + rewrite length_fmap. unfold dpad_changes.
      etransitivity; [apply length_filter|]. cbn. lia.
    + intros op Hin. apply list_elem_of_fmap in Hin as ([b s] & -> & Hin).
      unfold dpad_changes in Hin. apply list_elem_of_filter in Hin as [_ Hin].
      exists b, s. split; [reflexivity|]. exact (y_items_states _ _ _ Hin).
    + intros Hsame. rewrite Hsame.
      rewrite (dpad_changes_none (y_items (hat_y st))) by exact Hy.
      split; [reflexivity|].
      rewrite <- dpad_items_halves, store_all_id by exact (proj1 Hsync).
      apply set_hat_y_same.
Qed.

(** From rest, the hat pushed right. *)
Lemma hat_event_writes_witness :
  exists st' ops,
    on_event initial (abs_event e.ABS_HAT0X 1) = Ret (st', ops) /\
    (length ops <= 2)%nat /\
    (forall op, op ∈ ops ->
       exists btn state, op = Write e.EV_KEY btn state /\
         btn ∈ hat_buttons e.ABS_HAT0X /\ (state = 0 \/ state = 1)) /\
    (1 = hat_position initial e.ABS_HAT0X -> ops = [] /\ st' = initial).
Proof.
  apply (hat_event_writes initial (abs_event e.ABS_HAT0X 1)).
  - exact initial_dpad_sync.
  - split; [reflexivity | left; reflexivity].
Defined.
